(** * CineBusca (src/App.jsx): routing, search, details, favourites, storage

    A shallow embedding of the logic of the single-page application:
    the hash router [parseHash], the search controller [doSearch] with its
    derived [totalPages], the detail controller [load], the favourites
    store [toggleFavorite] and the [useLocalStorage] hook.

    Conventions of the embedding.
    - JavaScript strings are [string]s (their UTF-8 bytes).
    - A JavaScript number that holds an integer is that integer, and there
      is [NaN]; comparisons of such numbers are exact.  Where the program
      computes with them (the page count, the loop of the pagination
      control) the rounding of doubles is modelled by [binary64]; infinite
      doubles are not represented.
    - [undefined] is [None] in an [option]; an own property that holds
      [undefined] is modelled as an absent property (the program only reads
      properties and serialises with JSON.stringify, neither of which can
      tell the two apart).
    - A [throw] is the [Throw] completion; [try]/[catch]/[finally] are
      combinators of the small monad [Eff].
    - React state is passed explicitly: a component's state variables are the
      fields of a record, and a [setX] call is a field update.
    - An [async] function is split at its first [await]: the part that runs
      at the call, and the part that runs when the outcome of the request
      arrives, on the state that holds then.  [run_search] and [run_load]
      compose the two parts, for a call with nothing running in between. *)

From stdpp Require Import base gmap strings list pretty.
From Stdlib Require Import Ascii ZArith QArith Qround Lia.

Close Scope Q_scope.

(* ================================================================== *)
(** * Part I. The embedding *)
(* ================================================================== *)

(** ** Routes: [parseHash] (App.jsx, lines 62-69) *)

(** The object [{ name, params }] that [parseHash] returns: [name] is one of
    three literals and [params] carries an [id] for "details" only. *)
Inductive Route :=
  | search
  | favorites
  | details (id : string).

(** [window.location.hash] for a URL whose fragment is [fragment]: the
    getter yields the empty string for an empty fragment, and "#" followed
    by the fragment otherwise. *)
Definition location_hash (fragment : string) : string :=
  match fragment with
  | "" => ""
  | _ => "#" +:+ fragment
  end.

(** [h.replace(/^#\/?/, "")]: drops a leading "#" and one "/" after it. *)
Definition strip_hash_prefix (h : string) : string :=
  match h with
  | String "#"%char (String "/"%char r) => r
  | String "#"%char r => r
  | _ => h
  end.

(** [s.split(sep)] for a one-character separator; never the empty list. *)
Fixpoint split (sep : ascii) (s : string) : list string :=
  match s with
  | "" => [""]
  | String c r =>
      if decide (c = sep) then "" :: split sep r
      else match split sep r with
           | x :: xs => String c x :: xs
           | [] => [String c ""]
           end
  end.

(** Truthiness of a value that is a string or [undefined]. *)
Definition truthy_string (o : option string) : bool :=
  match o with
  | Some (String _ _) => true
  | _ => false
  end.

Definition parseHash (window_location_hash : string) : Route :=
  let hash := strip_hash_prefix window_location_hash in
  if negb (truthy_string (Some hash)) then search
  else
    let parts := split "/"%char hash in
    if bool_decide (parts !! 0%nat = Some "detalhes") && truthy_string (parts !! 1%nat)
    then details (default "" (parts !! 1%nat))
    else if bool_decide (parts !! 0%nat = Some "favoritos") then favorites
    else search.

(** The shapes of fragment that the router tells apart.  [lead] is the
    optional "/" that the prefix pattern swallows. *)
Definition slash_free (s : string) : Prop := ∀ a b, s ≠ a +:+ "/" +:+ b.

Definition ends_segment (tail : string) : Prop :=
  tail = "" ∨ ∃ t, tail = "/" +:+ t.

Definition optional_slash (lead : string) : Prop := lead = "" ∨ lead = "/".

Definition favorites_shape (fragment : string) : Prop :=
  ∃ lead tail, optional_slash lead ∧ ends_segment tail ∧
    fragment = lead +:+ "favoritos" +:+ tail.

Definition details_shape (fragment id : string) : Prop :=
  ∃ lead tail, optional_slash lead ∧ ends_segment tail ∧
    id ≠ "" ∧ slash_free id ∧
    fragment = lead +:+ "detalhes/" +:+ id +:+ tail.

(** ** Numbers *)

Inductive number :=
  | NaN
  | Int (z : Z).

(** [Math.ceil(x / 10)], on the exact quotient.  This is what the division
    of doubles gives for the integers up to 2^53 (see [totalPages_binary64]
    below, which rounds the quotient as the processor does). *)
Definition Math_ceil_div10 (x : number) : number :=
  match x with
  | NaN => NaN
  | Int z => Int (Qceiling (inject_Z z / inject_Z 10)%Q)
  end.

(** [useMemo(() => Math.ceil(total / 10), [total])] (App.jsx, line 266). *)
Definition totalPages (total : number) : number := Math_ceil_div10 total.

(** *** Arithmetic on doubles

    An arithmetic operation on doubles gives the exact result rounded to
    the nearest number with a significand of 53 bits, ties going to the
    even significand (IEEE 754 binary64, the one rounding mode of
    JavaScript).  The range of the exponent is not modelled: the numbers
    below are integers and their tenths, far from overflow and underflow. *)

(** [2^k], and 1 for a negative [k]. *)
Definition pow2 (k : Z) : Z := (2 ^ Z.max 0 k)%Z.

(** The integer nearest to [a / b], the even one of two equally near,
    for [b > 0]. *)
Definition round_half_even (a b : Z) : Z :=
  let q := (a `div` b)%Z in
  let r := (a `mod` b)%Z in
  if (2 * r <? b)%Z then q
  else if (b <? 2 * r)%Z then (q + 1)%Z
  else if Z.even q then q else (q + 1)%Z.

(** The [c] with [2^c <= n / d < 2^(c+1)], for [n > 0] and [d > 0]. *)
Definition floor_log2 (n d : Z) : Z :=
  let c := (Z.log2 n - Z.log2 d)%Z in
  if (n * pow2 (- c) <? d * pow2 c)%Z then (c - 1)%Z else c.

(** The double nearest to the positive rational [n / d]: a significand [m]
    between 2^52 and 2^53 and an exponent [e], for the value [m * 2^e]. *)
Definition binary64_pos (n d : Z) : Q :=
  let e := (floor_log2 n d - 52)%Z in
  let m := round_half_even (n * pow2 (- e)) (d * pow2 e) in
  (m * pow2 e # Z.to_pos (pow2 (- e)))%Q.

(** The double nearest to the rational [q]. *)
Definition binary64 (q : Q) : Q :=
  match Qnum q with
  | Z0 => 0%Q
  | Zpos n => binary64_pos (Zpos n) (Zpos (Qden q))
  | Zneg n => (- binary64_pos (Zpos n) (Zpos (Qden q)))%Q
  end.

(** Whether the integer [z] is a double. *)
Definition is_double (z : Z) : bool :=
  Qeq_bool (binary64 (inject_Z z)) (inject_Z z).

(** [a + b] on doubles that hold the integers [a] and [b]; the rounded sum
    is an integer again. *)
Definition double_add (a b : Z) : Z := Qfloor (binary64 (inject_Z (a + b))).

(** [Math.ceil(total / 10)] with the division of doubles, for a [total]
    that holds an integer. *)
Definition totalPages_binary64 (total : number) : number :=
  match total with
  | NaN => NaN
  | Int z => Int (Qceiling (binary64 (inject_Z z / inject_Z 10)%Q))
  end.

(** ** JavaScript values *)

(** The values JSON text denotes.  A value that may also be [undefined] is
    an [option json]. *)
#[warnings="-register-all"]
Inductive json :=
  | JNull
  | JBool (b : bool)
  | JNum (z : Z)
  | JStr (s : string)
  | JArr (l : list json)
  | JObj (m : gmap string json).

(** How an expression completes: with a value, or by throwing.  The thrown
    value is not kept, since both handlers in the program ignore it. *)
Inductive completion (A : Type) :=
  | Normal (a : A)
  | Throw.
Arguments Normal {A} a.
Arguments Throw {A}.

Definition ToBoolean (v : option json) : bool :=
  match v with
  | None | Some JNull => false
  | Some (JBool b) => b
  | Some (JNum z) => negb (z =? 0)%Z
  | Some (JStr s) => negb (bool_decide (s = ""))
  | Some (JArr _) | Some (JObj _) => true
  end.

(** [a || b] where [b] is defined: [a] when truthy, [b] otherwise. *)
Definition or_else (a : option json) (b : json) : json :=
  if ToBoolean a then default b a else b.

(** [v === s] for a string literal [s]. *)
Definition strict_eq_string (v : option json) (s : string) : bool :=
  match v with
  | Some (JStr t) => bool_decide (t = s)
  | _ => false
  end.

(** The own property [k] of [o], [undefined] when there is none. *)
Definition property (o : json) (k : string) : option json :=
  match o with
  | JObj m => m !! k
  | _ => None
  end.

(** [o.k] for a property name [k] that no built-in prototype defines and
    that is neither an index nor "length" (the four names read off an API
    reply are such): reading off [null] throws a TypeError, an object yields
    its own property, every other value yields [undefined]. *)
Definition Get (o : json) (k : string) : completion (option json) :=
  match o with
  | JNull => Throw
  | _ => Normal (property o k)
  end.

(** [ToString], with [Array.prototype.join] for arrays (where [null]
    elements print as the empty string).  Integers print in decimal, as
    ECMAScript prints those below 10^21. *)
Fixpoint ToString (v : json) : string :=
  match v with
  | JNull => "null"
  | JBool true => "true"
  | JBool false => "false"
  | JNum z => pretty z
  | JStr s => s
  | JArr l =>
      (fix join (l : list json) : string :=
         let element v := match v with JNull => "" | _ => ToString v end in
         match l with
         | [] => ""
         | [v] => element v
         | v :: l' => element v +:+ "," +:+ join l'
         end) l
  | JObj _ => "[object Object]"
  end.

(** ** Requests to the OMDb API *)

(** The two URLs the program builds.  Both start with [OMDB_BASE]; the
    search URL carries [apikey], [s], the fixed [type=movie] and [page], the
    detail URL carries [apikey], [i] and the fixed [plot=full]. *)
Inductive Request :=
  | SearchRequest (apikey s : string) (page : Z)
  | DetailRequest (apikey i : string).

(** ** A monad for component code

    [S] is the component's state; the list is the log of requests issued so
    far.  A computation that throws keeps the state changes made before the
    throw, as the [setX] calls of the program do. *)
Definition Eff (S A : Type) : Type :=
  S → list Request → completion A * S * list Request.

Section Eff.
Context {S : Type}.

#[global] Instance Eff_ret : MRet (Eff S) :=
  λ A a st log, (Normal a, st, log).

#[global] Instance Eff_bind : MBind (Eff S) :=
  λ A B f m st log,
    match m st log with
    | (Normal a, st', log') => f a st' log'
    | (Throw, st', log') => (Throw, st', log')
    end.

(** A state setter. *)
Definition set (f : S → S) : Eff S unit := λ st log, (Normal tt, f st, log).

(** An expression that may throw. *)
Definition eval {A} (c : completion A) : Eff S A := λ st log, (c, st, log).

(** [await fetch(url)] followed by [await res.json()]: the request is
    logged and [network] decides how the pair completes. *)
Definition fetch_json (network : Request → completion json) (url : Request)
  : Eff S json :=
  λ st log, (network url, st, log ++ [url]).

(** [try { body } catch (e) { handler } finally { final }]. *)
Definition try_catch_finally (body handler final : Eff S unit) : Eff S unit :=
  λ st log,
    let '(r, st1, log1) :=
      match body st log with
      | (Normal tt, st', log') => (Normal tt, st', log')
      | (Throw, st', log') => handler st' log'
      end in
    match final st1 log1 with
    | (Normal tt, st2, log2) => (r, st2, log2)
    | (Throw, st2, log2) => (Throw, st2, log2)
    end.
End Eff.

(** ** Search controller: [SearchView] (App.jsx, lines 258-300) *)

(** The state variables of [SearchView] that [doSearch] writes. *)
Record SearchState := {
  loading : bool;
  error : json;
  results : list json;
  total : number;
}.

(** The initial values given to [useState]. *)
Definition SearchState_init : SearchState :=
  {| loading := false; error := JStr ""; results := []; total := Int 0 |}.

Definition setLoading (b : bool) : Eff SearchState unit :=
  set (λ st, {| loading := b; error := error st;
                results := results st; total := total st |}).
Definition setError (e : json) : Eff SearchState unit :=
  set (λ st, {| loading := loading st; error := e;
                results := results st; total := total st |}).
Definition setResults (r : list json) : Eff SearchState unit :=
  set (λ st, {| loading := loading st; error := error st;
                results := r; total := total st |}).
Definition setTotal (n : number) : Eff SearchState unit :=
  set (λ st, {| loading := loading st; error := error st;
                results := results st; total := n |}).

Section SearchController.
(** [StringToNumber] of ECMAScript, which [Number] applies to strings; it
    is the host's and is taken as a parameter. *)
Variable StringToNumber : string → number.

(** [Number(v)].  An array converts through its [ToString]; a plain
    object through "[object Object]", which is no numeric literal. *)
Definition Number (v : option json) : number :=
  match v with
  | None => NaN
  | Some JNull => Int 0
  | Some (JBool b) => Int (if b then 1 else 0)
  | Some (JNum z) => Int z
  | Some (JStr s) => StringToNumber s
  | Some (JArr l) => StringToNumber (ToString (JArr l))
  | Some (JObj _) => NaN
  end.

Definition doSearch (network : Request → completion json)
    (apiKey q : string) (p : Z) : Eff SearchState unit :=
  if negb (truthy_string (Some q)) || negb (truthy_string (Some apiKey))
  then mret tt
  else
    setLoading true ;;
    setError (JStr "") ;;
    try_catch_finally
      (let url := SearchRequest apiKey q p in
       data ← fetch_json network url ;
       Response ← eval (Get data "Response") ;
       if strict_eq_string Response "False" then
         setResults [] ;;
         setTotal (Int 0) ;;
         Error ← eval (Get data "Error") ;
         setError (or_else Error (JStr "Nenhum resultado encontrado."))
       else
         Search ← eval (Get data "Search") ;
         setResults (match Search with Some (JArr l) => l | _ => [] end) ;;
         totalResults ← eval (Get data "totalResults") ;
         setTotal (Number (Some (or_else totalResults (JNum 0)))))
      (setError (JStr "Ocorreu um erro na busca. Verifique sua conexão e tente novamente."))
      (setLoading false).
End SearchController.

(** The state and the request log once [doSearch] has run to completion
    with nothing else running between its call and the arrival of its
    outcome.  What holds of a search whatever runs in between is stated
    over [search_started] and [search_arrived] below, the two halves of
    [doSearch] on either side of its first [await]. *)
Definition run_search (StringToNumber : string → number)
    (network : Request → completion json) (apiKey q : string) (p : Z)
    (st : SearchState) : SearchState * list Request :=
  let '(_, st', log) := doSearch StringToNumber network apiKey q p st [] in
  (st', log).

(** ** Detail controller: [DetailsView] (App.jsx, lines 375-403) *)

Record DetailState := {
  d_loading : bool;
  d_error : json;
  data : json;
}.

Definition DetailState_init : DetailState :=
  {| d_loading := true; d_error := JStr ""; data := JNull |}.

Definition d_setLoading (b : bool) : Eff DetailState unit :=
  set (λ st, {| d_loading := b; d_error := d_error st; data := data st |}).
Definition d_setError (e : json) : Eff DetailState unit :=
  set (λ st, {| d_loading := d_loading st; d_error := e; data := data st |}).
Definition setData (d : json) : Eff DetailState unit :=
  set (λ st, {| d_loading := d_loading st; d_error := d_error st; data := d |}).

Definition load (network : Request → completion json) (apiKey id : string)
  : Eff DetailState unit :=
  d_setLoading true ;;
  d_setError (JStr "") ;;
  try_catch_finally
    (let url := DetailRequest apiKey id in
     json ← fetch_json network url ;
     Response ← eval (Get json "Response") ;
     if strict_eq_string Response "False" then
       Error ← eval (Get json "Error") ;
       d_setError (or_else Error (JStr "Não foi possível obter os detalhes.")) ;;
       setData JNull
     else
       setData json)
    (d_setError (JStr "Ocorreu um erro ao carregar os detalhes."))
    (d_setLoading false).

(** The state and the request log once [load] has run to completion with
    nothing else running between its call and the arrival of its outcome;
    [load_started] and [load_arrived] below are its two halves. *)
Definition run_load (network : Request → completion json) (apiKey id : string)
    (st : DetailState) : DetailState * list Request :=
  let '(_, st', log) := load network apiKey id st [] in (st', log).

(** An instance of [StringToNumber] to evaluate with.  It agrees with
    ECMAScript on the empty string and on an optional sign followed by
    decimal digits; it sends every other string to [NaN]. *)
Definition digit_value (c : ascii) : option Z :=
  let n := Z.of_N (N_of_ascii c) in
  if ((48 <=? n) && (n <=? 57))%Z then Some (n - 48)%Z else None.

Fixpoint decimal_digits (acc : Z) (s : string) : option Z :=
  match s with
  | "" => Some acc
  | String c r =>
      match digit_value c with
      | Some d => decimal_digits (10 * acc + d) r
      | None => None
      end
  end.

Definition StringToNumber_decimal (s : string) : number :=
  match s with
  | "" => Int 0
  | String "-"%char (String c r) =>
      match decimal_digits 0 (String c r) with
      | Some n => Int (- n)
      | None => NaN
      end
  | String "+"%char (String c r) | String c r =>
      match decimal_digits 0 (String c r) with
      | Some n => Int n
      | None => NaN
      end
  end.

(** ** Favourites store: [toggleFavorite] (App.jsx, lines 548-563) *)

(** The record kept for a favourite, with the field types of the data model
    (spec, section 3): every field a string, the poster possibly absent. *)
Module Fav.
Record t := mk {
  imdbID : string;
  Title : string;
  Year : string;
  Poster : option string;
  Type_ : string;
}.
End Fav.

(** What the views hand to [toggleFavorite]: an object with the five fields
    it reads, and whatever [other] properties the object may have (a search
    item or a stored favourite has none, a detail record has many). *)
Record Movie := {
  imdbID : string;
  Title : string;
  Year : string;
  Poster : option string;
  Type_ : string;
  other : gmap string json;
}.

(** The names every object inherits from [Object.prototype] in a browser.
    Reading one of them off an object that has no own property of that name
    yields a function (or, for "__proto__", the prototype), all truthy. *)
Definition ObjectPrototype : list string :=
  ["constructor"; "hasOwnProperty"; "isPrototypeOf"; "propertyIsEnumerable";
   "toLocaleString"; "toString"; "valueOf"; "__proto__";
   "__defineGetter__"; "__defineSetter__"; "__lookupGetter__";
   "__lookupSetter__"].

(** Truthiness of [o[k]] for an object [o] created by a literal, whose own
    properties hold favourite records (objects, hence truthy). *)
Definition truthy_at (o : gmap string Fav.t) (k : string) : bool :=
  match o !! k with
  | Some _ => true
  | None => bool_decide (k ∈ ObjectPrototype)
  end.

(** The updater that [toggleFavorite] passes to [setFavorites]. *)
Definition toggleFavorite (movie : Movie) (prev : gmap string Fav.t)
  : gmap string Fav.t :=
  let next := prev in
  if truthy_at next (imdbID movie) then delete (imdbID movie) next
  else <[imdbID movie :=
           {| Fav.imdbID := imdbID movie;
              Fav.Title := Title movie;
              Fav.Year := Year movie;
              Fav.Poster := Poster movie;
              Fav.Type_ := Type_ movie |}]> next.

Definition isFav (favorites : gmap string Fav.t) (id : string) : bool :=
  truthy_at favorites id.

(** The record that toggling [movie] in stores. *)
Definition favorite_of (movie : Movie) : Fav.t :=
  {| Fav.imdbID := imdbID movie; Fav.Title := Title movie;
     Fav.Year := Year movie; Fav.Poster := Poster movie;
     Fav.Type_ := Type_ movie |}.

(** The invariant of the mapping: every key is the id of its record. *)
Definition key_is_id (m : gmap string Fav.t) : Prop :=
  ∀ k r, m !! k = Some r → Fav.imdbID r = k.

(** ** Browser storage and [useLocalStorage] (App.jsx, lines 44-59) *)

(** [window.localStorage]: reading the property throws when storage is
    disabled; [setItem] throws when the items would exceed the quota. *)
Record Storage := {
  accessible : bool;
  quota : N;
  items : gmap string string;
}.

Definition usage (m : gmap string string) : nat :=
  map_fold (λ k v n, String.length k + String.length v + n) 0 m.

Definition getItem (st : Storage) (key : string) : completion (option string) :=
  if accessible st then Normal (items st !! key) else Throw.

Definition setItem (st : Storage) (key value : string) : completion Storage :=
  if accessible st then
    let items' := <[key := value]> (items st) in
    if decide (N.of_nat (usage items') ≤ quota st)%N
    then Normal {| accessible := true; quota := quota st; items := items' |}
    else Throw
  else Throw.

(** [JSON.stringify] and [JSON.parse] on the values of type [A];
    [JSON_parse] is [None] where [JSON.parse] throws a SyntaxError. *)
Class JSON (A : Type) := {
  JSON_stringify : A → string;
  JSON_parse : string → option A;
}.

(** What ECMAScript guarantees of the pair on JSON values. *)
Class JSONLaws (A : Type) `{JSON A} : Prop := {
  parse_stringify : ∀ v : A, JSON_parse (JSON_stringify v) = Some v;
  stringify_nonempty : ∀ v : A, JSON_stringify v ≠ "";
}.

Section useLocalStorage.
Context {A : Type} `{JSON A}.

(** The initialiser given to [useState]: the value the hook starts with. *)
Definition useLocalStorage_init (st : Storage) (key : string)
    (initialValue : A) : A :=
  match getItem st key with
  | Normal item =>
      if truthy_string item then
        match JSON_parse (default "" item) with
        | Some v => v
        | None => initialValue
        end
      else initialValue
  | Throw => initialValue
  end.

(** The effect that runs after a render in which [key] or [value]
    changed: the storage it leaves. *)
Definition useLocalStorage_effect (st : Storage) (key : string) (value : A)
  : Storage :=
  match setItem st key (JSON_stringify value) with
  | Normal st' => st'
  | Throw => st
  end.
End useLocalStorage.

(** ** The favourites of [App] over their storage *)

Record Session := {
  storage : Storage;
  favorites_state : gmap string Fav.t;
}.

Section App.
Context `{JSON (gmap string Fav.t)}.

(** First render of [App]: the state is read from storage, then the
    effect of the hook writes it back. *)
Definition mount (st : Storage) : Session :=
  let favs : gmap string Fav.t := useLocalStorage_init st "omdbFavorites" ∅ in
  {| storage := useLocalStorage_effect st "omdbFavorites" favs;
     favorites_state := favs |}.

(** A click on a favourite button: the state is updated and, the value
    having changed, the effect persists it. *)
Definition click_toggle (s : Session) (movie : Movie) : Session :=
  let favs := toggleFavorite movie (favorites_state s) in
  {| storage := useLocalStorage_effect (storage s) "omdbFavorites" favs;
     favorites_state := favs |}.

(** What a later visit would start with. *)
Definition reload (s : Session) : gmap string Fav.t :=
  useLocalStorage_init (storage s) "omdbFavorites" ∅.
End App.

(** ** JSON text for the two stored values

    An instance of [JSON] for strings (the "omdbApiKey" entry) and one for
    the favourites mapping (the "omdbFavorites" entry).  The encoders emit
    the text JSON.stringify emits, up to the order in which the members of
    the mapping are listed, which the unordered mapping does not record.
    The decoders read compact JSON text (no white space between tokens),
    which is what the encoders and JSON.stringify produce. *)
Module JSONText.

Definition dquote : ascii := "034"%char.
Definition backslash : ascii := "092"%char.

Definition hex_digit (n : N) : ascii :=
  ascii_of_N (if (n <? 10)%N then 48 + n else 87 + n)%N.

Definition hex_value (c : ascii) : option N :=
  let n := N_of_ascii c in
  if ((48 <=? n) && (n <=? 57))%N then Some (n - 48)%N
  else if ((97 <=? n) && (n <=? 102))%N then Some (n - 87)%N
  else if ((65 <=? n) && (n <=? 70))%N then Some (n - 55)%N
  else None.

(** QuoteJSONString, one character at a time; [k] is the text that
    follows. *)
Definition emit_char (c : ascii) (k : string) : string :=
  let n := N_of_ascii c in
  if (c =? dquote)%char then String backslash (String dquote k)
  else if (c =? backslash)%char then String backslash (String backslash k)
  else if (n =? 8)%N then String backslash (String "b" k)
  else if (n =? 12)%N then String backslash (String "f" k)
  else if (n =? 10)%N then String backslash (String "n" k)
  else if (n =? 13)%N then String backslash (String "r" k)
  else if (n =? 9)%N then String backslash (String "t" k)
  else if (n <? 32)%N then
    String backslash (String "u" (String "0" (String "0"
      (String (hex_digit (n / 16)) (String (hex_digit (n mod 16)) k)))))
  else String c k.

Fixpoint emit_chars (s : string) (k : string) : string :=
  match s with
  | "" => k
  | String c r => emit_char c (emit_chars r k)
  end.

Definition emit_string (s : string) (k : string) : string :=
  String dquote (emit_chars s (String dquote k)).

(** The character a two-character escape denotes. *)
Definition unescape (e : ascii) : option ascii :=
  if (e =? dquote)%char then Some dquote
  else if (e =? backslash)%char then Some backslash
  else if (e =? "/")%char then Some "/"%char
  else if (e =? "b")%char then Some "008"%char
  else if (e =? "f")%char then Some "012"%char
  else if (e =? "n")%char then Some "010"%char
  else if (e =? "r")%char then Some "013"%char
  else if (e =? "t")%char then Some "009"%char
  else None.

(** The characters of a string literal up to its closing quote, and the
    text after it.  A \u escape is decoded when it denotes an ASCII
    character; raw control characters are rejected, as JSON.parse does. *)
Fixpoint parse_chars (s : string) : option (string * string) :=
  match s with
  | "" => None
  | String c r =>
      if (c =? dquote)%char then Some ("", r)
      else if (c =? backslash)%char then
        match r with
        | "" => None
        | String e r1 =>
            if (e =? "u")%char then
              match r1 with
              | String h1 (String h2 (String h3 (String h4 r2))) =>
                  match hex_value h1, hex_value h2, hex_value h3, hex_value h4 with
                  | Some a, Some b, Some c, Some d =>
                      let code := (((a * 16 + b) * 16 + c) * 16 + d)%N in
                      if (code <? 128)%N then
                        match parse_chars r2 with
                        | Some (x, k) => Some (String (ascii_of_N code) x, k)
                        | None => None
                        end
                      else None
                  | _, _, _, _ => None
                  end
              | _ => None
              end
            else
              match unescape e with
              | Some d =>
                  match parse_chars r1 with
                  | Some (x, k) => Some (String d x, k)
                  | None => None
                  end
              | None => None
              end
        end
      else if (N_of_ascii c <? 32)%N then None
      else
        match parse_chars r with
        | Some (x, k) => Some (String c x, k)
        | None => None
        end
  end.

Definition parse_string (s : string) : option (string * string) :=
  match s with
  | String c r => if (c =? dquote)%char then parse_chars r else None
  | "" => None
  end.

(** Objects, over an encoder and a decoder for their member values. *)
Section Objects.
Context {V : Type}.
Variable emit_value : V → string → string.
Variable parse_value : string → option (V * string).

Definition emit_member (m : string * V) (k : string) : string :=
  emit_string m.1 (String ":" (emit_value m.2 k)).

(** The members after the first, and the closing brace. *)
Fixpoint emit_members (l : list (string * V)) (k : string) : string :=
  match l with
  | [] => String "}" k
  | m :: l' => String "," (emit_member m (emit_members l' k))
  end.

Definition emit_object (l : list (string * V)) (k : string) : string :=
  match l with
  | [] => String "{" (String "}" k)
  | m :: l' => String "{" (emit_member m (emit_members l' k))
  end.

Definition parse_member (s : string) : option ((string * V) * string) :=
  match parse_string s with
  | Some (name, String c s1) =>
      if (c =? ":")%char then
        match parse_value s1 with
        | Some (v, s2) => Some ((name, v), s2)
        | None => None
        end
      else None
  | _ => None
  end.

Fixpoint parse_members (fuel : nat) (s : string)
  : option (list (string * V) * string) :=
  match fuel, s with
  | S fuel', String c s1 =>
      if (c =? "}")%char then Some ([], s1)
      else if (c =? ",")%char then
        match parse_member s1 with
        | Some (m, s2) =>
            match parse_members fuel' s2 with
            | Some (l, k) => Some (m :: l, k)
            | None => None
            end
        | None => None
        end
      else None
  | _, _ => None
  end.

(** The members in the order of the text; the fuel is the length of the
    text, more than the number of members it can hold. *)
Definition parse_object (s : string) : option (list (string * V) * string) :=
  match s with
  | String c s1 =>
      if (c =? "{")%char then
        match s1 with
        | String c1 s2 =>
            if (c1 =? "}")%char then Some ([], s2)
            else
              match parse_member s1 with
              | Some (m, s3) =>
                  match parse_members (String.length s) s3 with
                  | Some (l, k) => Some (m :: l, k)
                  | None => None
                  end
              | None => None
              end
        | "" => None
        end
      else None
  | "" => None
  end.
End Objects.

(** The value of member [name]; of two members with one name JSON.parse
    keeps the later. *)
Definition member {V} (l : list (string * V)) (name : string) : option V :=
  foldl (λ found m, if decide (m.1 = name) then Some m.2 else found) None l.

(** A favourite record: its members in the order [toggleFavorite] writes
    them; an absent poster is left out, as JSON.stringify leaves out a
    property that holds [undefined]. *)
Definition record_members (r : Fav.t) : list (string * string) :=
  [("imdbID", Fav.imdbID r); ("Title", Fav.Title r); ("Year", Fav.Year r)]
  ++ match Fav.Poster r with Some p => [("Poster", p)] | None => [] end
  ++ [("Type", Fav.Type_ r)].

Definition emit_record (r : Fav.t) (k : string) : string :=
  emit_object emit_string (record_members r) k.

(** Members that are no field of the record are dropped; an object that
    lacks a required field, or whose members are no strings, is no
    favourite record. *)
Definition record_of_members (l : list (string * string)) : option Fav.t :=
  match member l "imdbID", member l "Title", member l "Year", member l "Type" with
  | Some id, Some title, Some year, Some type =>
      Some {| Fav.imdbID := id; Fav.Title := title; Fav.Year := year;
              Fav.Poster := member l "Poster"; Fav.Type_ := type |}
  | _, _, _, _ => None
  end.

Definition parse_record (s : string) : option (Fav.t * string) :=
  match parse_object parse_string s with
  | Some (l, k) =>
      match record_of_members l with
      | Some r => Some (r, k)
      | None => None
      end
  | None => None
  end.

Definition complete {A} (r : option (A * string)) : option A :=
  match r with
  | Some (v, "") => Some v
  | _ => None
  end.

#[export] Instance JSON_string : JSON string := {|
  JSON_stringify s := emit_string s "";
  JSON_parse s := complete (parse_string s);
|}.

(** Of two members with one name the later wins, so the members are
    entered last to first. *)
#[export] Instance JSON_favorites : JSON (gmap string Fav.t) := {|
  JSON_stringify m := emit_object emit_record (map_to_list m) "";
  JSON_parse s :=
    match complete (parse_object parse_record s) with
    | Some l => Some (list_to_map (reverse l))
    | None => None
    end;
|}.
End JSONText.

(** ** Sample favourites and storages *)

Definition matrix : Movie :=
  {| imdbID := "tt0133093"; Title := "The Matrix"; Year := "1999";
     Poster := Some "N/A"; Type_ := "movie"; other := ∅ |}.

(** The same id under another title. *)
Definition matrix_retitled : Movie :=
  {| imdbID := "tt0133093"; Title := "Matrix"; Year := "1999";
     Poster := None; Type_ := "movie"; other := ∅ |}.

(** An item whose id is a name that objects inherit. *)
Definition constructor_movie : Movie :=
  {| imdbID := "constructor"; Title := "Constructor"; Year := "2024";
     Poster := None; Type_ := "movie"; other := ∅ |}.

Definition empty_storage : Storage :=
  {| accessible := true; quota := 5000000; items := ∅ |}.

(** A storage with room for 16 characters, keys included. *)
Definition small_storage : Storage :=
  {| accessible := true; quota := 16; items := ∅ |}.

Definition disabled_storage : Storage :=
  {| accessible := false; quota := 0; items := ∅ |}.

(** ** Sample API replies *)

Definition sample_movie : json :=
  JObj (list_to_map [("imdbID", JStr "tt0133093"); ("Title", JStr "The Matrix");
                     ("Year", JStr "1999"); ("Type", JStr "movie");
                     ("Poster", JStr "N/A")]).

Definition sample_found : json :=
  JObj (list_to_map [("Response", JStr "True"); ("Search", JArr [sample_movie]);
                     ("totalResults", JStr "1")]).


Definition sample_not_found : gmap string json :=
  list_to_map [("Response", JStr "False"); ("Error", JStr "Movie not found!")].

Definition sample_detail : json :=
  JObj (list_to_map [("Response", JStr "True"); ("imdbID", JStr "tt0133093");
                     ("Title", JStr "The Matrix"); ("Director", JStr "N/A")]).

(** ** Navigation: [navigate] (App.jsx, lines 542-546) *)

(** [`${v}`] for a value that is a string or [undefined]. *)
Definition template_string (v : option string) : string :=
  default "undefined" v.

(** The value [navigate] assigns to [window.location.hash], [None] when none
    of its three tests holds and nothing is assigned. *)
Definition navigate (name : string) (params_id : option string) : option string :=
  let assigned := None in
  let assigned :=
    if bool_decide (name = "search") then Some "/" else assigned in
  let assigned :=
    if bool_decide (name = "favorites") then Some "/favoritos" else assigned in
  let assigned :=
    if bool_decide (name = "details")
    then Some ("/detalhes/" +:+ template_string params_id) else assigned in
  assigned.

(** The fragment the browser keeps when a script assigns [value] to
    [window.location.hash] (URL Standard, fragment state): one leading "#"
    is dropped, tabs and newlines are removed, and the bytes of the fragment
    percent-encode set (controls, space, the double quote, "<", ">", the
    backquote and everything above "~") are written as "%" and two
    upper-case hexadecimal digits. *)
Definition upper_hex_digit (n : N) : ascii :=
  ascii_of_N (if (n <? 10)%N then 48 + n else 55 + n)%N.

Definition fragment_percent_encoded (c : ascii) : bool :=
  let n := N_of_ascii c in
  ((n <? 32) || (126 <? n) || (n =? 32) || (n =? 34) || (n =? 60) ||
   (n =? 62) || (n =? 96))%N.

Fixpoint fragment_of_input (s : string) : string :=
  match s with
  | "" => ""
  | String c r =>
      let n := N_of_ascii c in
      if ((n =? 9) || (n =? 10) || (n =? 13))%N then fragment_of_input r
      else if fragment_percent_encoded c then
        String "%" (String (upper_hex_digit (n / 16))
          (String (upper_hex_digit (n mod 16)) (fragment_of_input r)))
      else String c (fragment_of_input r)
  end.

Definition assign_location_hash (value : string) : string :=
  fragment_of_input
    match value with
    | String "#"%char r => r
    | _ => value
    end.

(** Strings the browser keeps as they are in a fragment. *)
Fixpoint kept_verbatim (s : string) : bool :=
  match s with
  | "" => true
  | String c r => negb (fragment_percent_encoded c) && kept_verbatim r
  end.

(** The route of [App] after a call of [navigate]: an assignment changes
    the hash and the "hashchange" listener parses it. *)
Definition route_after_navigate (name : string) (params_id : option string)
    (route : Route) : Route :=
  match navigate name params_id with
  | Some value => parseHash (location_hash (assign_location_hash value))
  | None => route
  end.

(** ** Pagination control: [Pagination] (App.jsx, lines 188-255) *)

(** Whether the component renders: [!totalPages || totalPages <= 1] makes
    it return [null]. *)
Definition Pagination_renders (totalPages : number) : bool :=
  match totalPages with
  | NaN => false
  | Int n => negb ((n =? 0)%Z || (n <=? 1)%Z)
  end.

Definition canPrev (page : Z) : bool := (1 <? page)%Z.
Definition canNext (page totalPages : Z) : bool := (page <? totalPages)%Z.

(** The page [goto] hands to [onChange]. *)
Definition goto (totalPages : Z) (p : Z) : Z :=
  let p := if (p <? 1)%Z then 1%Z else p in
  let p := if (totalPages <? p)%Z then totalPages else p in
  p.

(** [for (let p = from; p <= to; p++) pages.push(p)], with one unit of fuel
    for each turn of the loop.  [p++] adds 1 as doubles do: from 2^53 on
    the sum rounds back to [p], and the loop of the source does not end.
    The result is [None] when the fuel runs out before the loop ends. *)
Fixpoint push_pages (fuel : nat) (p to : Z) (pages : list Z)
  : option (list Z) :=
  if (p <=? to)%Z then
    match fuel with
    | O => None
    | S fuel' => push_pages fuel' (double_add p 1) to (pages ++ [p])
    end
  else Some pages.

(** The numbered buttons around the current page (lines 201-204):
    [from = Math.max(1, page - 2)], [to = Math.min(totalPages, page + 2)]
    and the loop from [from] to [to]. *)
Definition page_buttons (fuel : nat) (page totalPages : Z) : option (list Z) :=
  let from := Z.max 1 (double_add page (-2)) in
  let to := Z.min totalPages (double_add page 2) in
  push_pages fuel from to [].

(** ** Field of the detail page: [InfoField] (App.jsx, lines 478-486) *)




(** ** The search page as a whole: [SearchView] (App.jsx, lines 258-300) *)

Record SearchView := {
  term : string;
  page : Z;
  controller : SearchState;
}.

(** [doSearch] up to its first [await]: the two setters have run and the
    request is on its way. *)
Definition search_started : Eff SearchState unit :=
  setLoading true ;;
  setError (JStr "").

Section SearchViewModel.
Variable StringToNumber : string → number.

(** [doSearch] from its first [await] on, once the fetch and the decoding
    have completed with [outcome]. *)
Definition search_arrived (outcome : completion json) : Eff SearchState unit :=
  try_catch_finally
    (data ← eval outcome ;
     Response ← eval (Get data "Response") ;
     if strict_eq_string Response "False" then
       setResults [] ;;
       setTotal (Int 0) ;;
       Error ← eval (Get data "Error") ;
       setError (or_else Error (JStr "Nenhum resultado encontrado."))
     else
       Search ← eval (Get data "Search") ;
       setResults (match Search with Some (JArr l) => l | _ => [] end) ;;
       totalResults ← eval (Get data "totalResults") ;
       setTotal (Number StringToNumber (Some (or_else totalResults (JNum 0)))))
    (setError (JStr "Ocorreu um erro na busca. Verifique sua conexão e tente novamente."))
    (setLoading false).

(** The state that the arrival of [outcome] leaves, from the state [st]
    that it finds.  [st] need not be the state that the call left: other
    calls of [doSearch] and other arrivals may have run since. *)
Definition search_arrival (outcome : completion json) (st : SearchState)
  : SearchState :=
  let '(_, st', _) := search_arrived outcome st [] in st'.

End SearchViewModel.

(** A call of [doSearch] as far as it runs before control returns to
    React: the state it leaves and the requests it has issued. *)
Definition doSearch_call (apiKey q : string) (p : Z) (st : SearchState)
  : SearchState * list Request :=
  if negb (truthy_string (Some q)) || negb (truthy_string (Some apiKey))
  then (st, [])
  else
    let '(_, st', _) := search_started st [] in
    (st', [SearchRequest apiKey q p]).

(** The effect keyed on [page], run after a render in which [page]
    changed. *)
Definition page_effect (apiKey : string) (v : SearchView)
  : SearchState * list Request :=
  if truthy_string (Some (term v)) && truthy_string (Some apiKey)
  then doSearch_call apiKey (term v) (page v) (controller v)
  else (controller v, []).

(** [setPage(p)], as the pagination control calls it: when the page
    changes, the render is followed by the effect. *)
Definition setPage (apiKey : string) (v : SearchView) (p : Z)
  : SearchView * list Request :=
  if bool_decide (p = page v) then (v, [])
  else
    let v1 := {| term := term v; page := p; controller := controller v |} in
    let '(st, log) := page_effect apiKey v1 in
    ({| term := term v; page := p; controller := st |}, log).

(** A click on a button of the pagination control that calls [goto(p)]. *)
Definition Pagination_click (apiKey : string) (totalPages : Z)
    (v : SearchView) (p : Z) : SearchView * list Request :=
  setPage apiKey v (goto totalPages p).

(** [onSubmit]: [setPage(1)], then [doSearch(term, 1)]; the render that
    follows runs the effect keyed on [page] when the page was not 1. *)
Definition onSubmit (apiKey : string) (v : SearchView)
  : SearchView * list Request :=
  let '(st1, log1) := doSearch_call apiKey (term v) 1 (controller v) in
  let v1 := {| term := term v; page := 1; controller := st1 |} in
  let '(st2, log2) :=
    if bool_decide (page v = 1%Z) then (st1, []) else page_effect apiKey v1 in
  ({| term := term v; page := 1; controller := st2 |}, log1 ++ log2).

(** ** The detail page as a whole: the effect of [DetailsView]
    (App.jsx, lines 400-403) *)

(** [load] up to its first [await] (lines 380-384). *)
Definition load_started : Eff DetailState unit :=
  d_setLoading true ;;
  d_setError (JStr "").

(** [load] from its first [await] on (lines 384-397), once the fetch and
    the decoding have completed with [outcome]. *)
Definition load_arrived (outcome : completion json) : Eff DetailState unit :=
  try_catch_finally
    (json ← eval outcome ;
     Response ← eval (Get json "Response") ;
     if strict_eq_string Response "False" then
       Error ← eval (Get json "Error") ;
       d_setError (or_else Error (JStr "Não foi possível obter os detalhes.")) ;;
       setData JNull
     else
       setData json)
    (d_setError (JStr "Ocorreu um erro ao carregar os detalhes."))
    (d_setLoading false).

(** A call of [load] as far as it runs before control returns to React. *)
Definition load_call (apiKey id : string) (st : DetailState)
  : DetailState * list Request :=
  let '(_, st', _) := load_started st [] in
  (st', [DetailRequest apiKey id]).

(** The state that the arrival of [outcome] leaves, from the state [st]
    that it finds. *)
Definition load_arrival (outcome : completion json) (st : DetailState)
  : DetailState :=
  let '(_, st', _) := load_arrived outcome st [] in st'.

Definition DetailsView_effect (network : Request → completion json)
    (apiKey id : string) (st : DetailState) : DetailState * list Request :=
  if truthy_string (Some apiKey) && truthy_string (Some id)
  then run_load network apiKey id st
  else (st, []).

(** ** The favourites page: [FavoritesView] (App.jsx, lines 489-522) *)

(** [Object.values(favoritesMap)], in no particular order. *)
Definition Object_values (favoritesMap : gmap string Fav.t) : list Fav.t :=
  (map_to_list favoritesMap).*2.

(** A stored record handed back to [onToggleFavorite]. *)
Definition as_movie (r : Fav.t) : Movie :=
  {| imdbID := Fav.imdbID r; Title := Fav.Title r; Year := Fav.Year r;
     Poster := Fav.Poster r; Type_ := Fav.Type_ r; other := ∅ |}.

(** Whether the page shows its "no favourites yet" text. *)
Definition FavoritesView_empty (favoritesMap : gmap string Fav.t) : bool :=
  bool_decide (length (Object_values favoritesMap) = 0).

(* ================================================================== *)
(** * Part II. Properties *)
(* ================================================================== *)

(** ** The router *)

Lemma append_cons (c : ascii) (s t : string) :
  String c s +:+ t = String c (s +:+ t).
Proof. reflexivity. Qed.

Lemma append_empty_r (s : string) : s +:+ "" = s.
Proof. induction s as [|c s IH]; [done|]. by rewrite append_cons, IH. Qed.

Lemma append_assoc (s t u : string) : (s +:+ t) +:+ u = s +:+ t +:+ u.
Proof. induction s as [|c s IH]; [done|]. by rewrite !append_cons, IH. Qed.

Lemma slash_free_empty : slash_free "".
Proof. intros [|c a] b; discriminate. Qed.

Lemma slash_free_cons (c : ascii) (s : string) :
  c ≠ "/"%char → slash_free s → slash_free (String c s).
Proof.
  intros Hc Hs [|x a] b; simpl; intros E; injection E as E1 E2.
  - by apply Hc.
  - by apply (Hs a b).
Qed.

(** The first element [split] returns is the text before the first "/", and
    the other elements are the split of what follows that "/". *)
Lemma split_first (s : string) :
  ∃ a rest, split "/"%char s = a :: rest ∧ slash_free a ∧
    ((rest = [] ∧ s = a) ∨ (∃ b, s = a +:+ "/" +:+ b ∧ rest = split "/"%char b)).
Proof.
  induction s as [|c r (a & rest & Hsplit & Hfree & Hshape)]; simpl.
  - exists "", []. split_and!; [done|apply slash_free_empty|by left].
  - destruct (decide (c = "/"%char)) as [->|Hc].
    + exists "", (split "/"%char r). split_and!; [done|apply slash_free_empty|].
      right. by exists r.
    + rewrite Hsplit. exists (String c a), rest.
      split_and!; [done|by apply slash_free_cons|].
      destruct Hshape as [[-> ->]|(b & -> & ->)]; [by left|right; by exists b].
Qed.

(** What the prefix pattern leaves of [window.location.hash]. *)
Lemma strip_location_hash (fragment : string) :
  ∃ lead, optional_slash lead ∧
    fragment = lead +:+ strip_hash_prefix (location_hash fragment).
Proof.
  destruct fragment as [|c r]; [exists ""; by split; [left|]|].
  destruct (decide (c = "/"%char)) as [->|Hc].
  - exists "/". split; [by right|done].
  - exists "". split; [by left|].
    simpl. destruct c as [[] [] [] [] [] [] [] []]; try done.
Qed.

(** [parseHash] on a non-empty [hash], in terms of the first two segments. *)
Lemma parseHash_segments (fragment a : string) (rest : list string) :
  strip_hash_prefix (location_hash fragment) ≠ "" →
  split "/"%char (strip_hash_prefix (location_hash fragment)) = a :: rest →
  parseHash (location_hash fragment) =
    if bool_decide (a = "detalhes") && truthy_string (head rest)
    then details (default "" (head rest))
    else if bool_decide (a = "favoritos") then favorites else search.
Proof.
  intros Hne Hs. unfold parseHash. rewrite Hs.
  destruct (strip_hash_prefix _) as [|c h]; [done|]. simpl.
  replace (bool_decide (Some a = Some "detalhes")) with (bool_decide (a = "detalhes"))
    by (apply bool_decide_ext; naive_solver).
  replace (bool_decide (Some a = Some "favoritos")) with (bool_decide (a = "favoritos"))
    by (apply bool_decide_ext; naive_solver).
  by destruct rest.
Qed.

Lemma parseHash_empty_hash (fragment : string) :
  strip_hash_prefix (location_hash fragment) = "" →
  parseHash (location_hash fragment) = search.
Proof. intros H. unfold parseHash. by rewrite H. Qed.

Lemma parseHash_favorites_inv (fragment : string) :
  parseHash (location_hash fragment) = favorites → favorites_shape fragment.
Proof.
  destruct (strip_location_hash fragment) as (lead & Hlead & Hf).
  destruct (decide (strip_hash_prefix (location_hash fragment) = "")) as [E|E].
  { by rewrite (parseHash_empty_hash _ E). }
  destruct (split_first (strip_hash_prefix (location_hash fragment)))
    as (a & rest & Hs & _ & Hshape).
  rewrite (parseHash_segments _ _ _ E Hs).
  destruct (bool_decide (a = "detalhes") && truthy_string (head rest)); [done|].
  case_bool_decide as Ha; [|done]. intros _. subst a.
  destruct Hshape as [[_ Hh]|(b & Hh & _)]; rewrite Hh in Hf.
  - exists lead, "". split_and!; [done|by left|done].
  - exists lead, ("/" +:+ b). split_and!; [done|right; by exists b|done].
Qed.

Lemma parseHash_details_inv (fragment id : string) :
  parseHash (location_hash fragment) = details id → details_shape fragment id.
Proof.
  destruct (strip_location_hash fragment) as (lead & Hlead & Hf).
  destruct (decide (strip_hash_prefix (location_hash fragment) = "")) as [E|E].
  { by rewrite (parseHash_empty_hash _ E). }
  destruct (split_first (strip_hash_prefix (location_hash fragment)))
    as (a & rest & Hs & _ & Hshape).
  rewrite (parseHash_segments _ _ _ E Hs).
  case_bool_decide as Ha; simpl; [|by case_bool_decide].
  destruct Hshape as [[-> _]|(b & Hh & ->)]; [simpl; by case_bool_decide|].
  destruct (split_first b) as (a2 & rest2 & Hs2 & Hfree2 & Hshape2).
  rewrite Hs2. simpl. subst a.
  destruct a2 as [|c2 a2]; simpl; [done|].
  intros [= <-]. rewrite Hh in Hf.
  destruct Hshape2 as [[_ ->]|(b2 & -> & _)].
  - exists lead, "". split_and!; [done|by left|done|done|].
    rewrite Hf. by rewrite append_empty_r.
  - exists lead, ("/" +:+ b2). split_and!; [done|right; by exists b2|done|done|].
    by rewrite Hf.
Qed.

Lemma slash_free_inv (c : ascii) (s : string) :
  slash_free (String c s) → c ≠ "/"%char ∧ slash_free s.
Proof.
  intros H. split.
  - intros ->. by apply (H "" s).
  - intros a b ->. by apply (H (String c a) b).
Qed.

Lemma split_segment (id tail : string) :
  slash_free id → ends_segment tail →
  head (split "/"%char (id +:+ tail)) = Some id.
Proof.
  intros Hid Htail. induction id as [|c id IH].
  - by destruct Htail as [->|[t ->]].
  - apply slash_free_inv in Hid as [Hc Hid]. specialize (IH Hid).
    rewrite append_cons. simpl. rewrite decide_False by done.
    destruct (split "/"%char (id +:+ tail)) as [|x xs]; simplify_eq/=; done.
Qed.

Lemma parseHash_favorites_shape (fragment : string) :
  favorites_shape fragment → parseHash (location_hash fragment) = favorites.
Proof.
  intros (lead & tail & [->| ->] & [->|[t ->]] & ->); reflexivity.
Qed.

Lemma parseHash_details_shape (fragment id : string) :
  details_shape fragment id → parseHash (location_hash fragment) = details id.
Proof.
  intros (lead & tail & Hlead & Htail & Hne & Hfree & ->).
  pose proof (split_segment id tail Hfree Htail) as Hhead.
  assert (strip_hash_prefix (location_hash (lead +:+ "detalhes/" +:+ id +:+ tail))
          = "detalhes/" +:+ id +:+ tail) as Hstrip
    by (by destruct Hlead as [->| ->]).
  rewrite (parseHash_segments _ "detalhes" (split "/"%char (id +:+ tail)));
    rewrite ?Hstrip; [|done..].
  rewrite Hhead. simpl. by destruct id.
Qed.

(** C3 (as amended): the router decides on the first two "/"-separated
    segments of the fragment, after one optional leading "/".  It returns
    Favorites exactly when the first segment is "favoritos" (whatever
    follows it), Details exactly when the first segment is "detalhes" and
    the second is non-empty, with that second segment (up to the next "/")
    as id, and Search in every other case; it is total, so no fragment is
    an error.  In particular the empty fragment and "/" give Search,
    "/favoritos" gives Favorites, "/detalhes/tt0133093" gives Details with
    id "tt0133093", and "/unknown" gives Search. *)
Theorem parseHash_by_segments (fragment : string) :
  (parseHash (location_hash fragment) = favorites ↔ favorites_shape fragment) ∧
  (∀ id, parseHash (location_hash fragment) = details id ↔
         details_shape fragment id) ∧
  (parseHash (location_hash fragment) = search ↔
     ¬ favorites_shape fragment ∧ ∀ id, ¬ details_shape fragment id) ∧
  parseHash (location_hash "") = search ∧
  parseHash (location_hash "/") = search ∧
  parseHash (location_hash "/favoritos") = favorites ∧
  parseHash (location_hash "/detalhes/tt0133093") = details "tt0133093" ∧
  parseHash (location_hash "/unknown") = search.
Proof.
  assert (Hfav : parseHash (location_hash fragment) = favorites ↔
                 favorites_shape fragment)
    by (split; [apply parseHash_favorites_inv|apply parseHash_favorites_shape]).
  assert (Hdet : ∀ id, parseHash (location_hash fragment) = details id ↔
                       details_shape fragment id)
    by (intros id; split;
        [apply parseHash_details_inv|apply parseHash_details_shape]).
  split_and!; try done.
  split.
  - intros Hs. split; [rewrite <- Hfav|intros id; rewrite <- Hdet]; congruence.
  - intros [Hnf Hnd].
    destruct (parseHash (location_hash fragment)) as [| |id] eqn:E; [done|..].
    + by destruct Hnf; apply Hfav.
    + by destruct (Hnd id); apply Hdet.
Qed.

(** C3, counterexample to the claim as stated: "/favoritos/x" is none of the
    three listed shapes, yet it is routed to Favorites and not to Search;
    and for "/detalhes/a/b" the id is the second segment "a", not the
    verbatim remainder "a/b". *)
Lemma parseHash_other_shape_not_search :
  parseHash (location_hash "/favoritos/x") = favorites ∧
  parseHash (location_hash "/favoritos/x") ≠ search ∧
  parseHash (location_hash "/detalhes/a/b") = details "a" ∧
  parseHash (location_hash "/detalhes/a/b") ≠ details "a/b".
Proof. by vm_compute. Qed.

(** ** Page count *)

Lemma Qceiling_div10 (z : Z) :
  Qceiling (inject_Z z / inject_Z 10)%Q = (- ((- z) `div` 10))%Z.
Proof.
  unfold Qceiling, Qfloor, Qdiv, Qmult, Qinv, Qopp, inject_Z. simpl.
  by rewrite Z.mul_1_r.
Qed.

Lemma pow2_nonpos (k : Z) : (k ≤ 0)%Z → pow2 k = 1%Z.
Proof. intros Hk. unfold pow2. by rewrite Z.max_l by lia. Qed.

Lemma pow2_nonneg (k : Z) : (0 ≤ k)%Z → pow2 k = (2 ^ k)%Z.
Proof. intros Hk. unfold pow2. by rewrite Z.max_r by lia. Qed.

(** Rounding to the nearest integer moves a quotient by a half at most. *)
Lemma round_half_even_near (a b : Z) :
  (0 < b)%Z →
  (- b ≤ 2 * (a - round_half_even a b * b) ≤ b)%Z.
Proof.
  intros Hb. unfold round_half_even.
  pose proof (Z.div_mod a b ltac:(lia)) as Hdm.
  pose proof (Z.mod_pos_bound a b Hb) as Hr.
  destruct (Z.ltb_spec (2 * (a `mod` b)) b);
    [|destruct (Z.ltb_spec b (2 * (a `mod` b)));
      [|destruct (Z.even (a `div` b))]]; nia.
Qed.

Lemma round_half_even_exact (a : Z) : round_half_even a 1 = a.
Proof.
  unfold round_half_even. rewrite Z.div_1_r, Z.mod_1_r. done.
Qed.

(** [floor_log2] is a lower bound: [2^c <= n / d]. *)
Lemma floor_log2_lower (n d : Z) :
  (0 < n)%Z → (0 < d)%Z → (0 ≤ floor_log2 n d)%Z →
  (d * 2 ^ floor_log2 n d ≤ n)%Z.
Proof.
  intros Hn Hd. unfold floor_log2.
  pose proof (Z.log2_spec n Hn) as [Hn1 Hn2].
  pose proof (Z.log2_spec d Hd) as [Hd1 Hd2].
  pose proof (Z.log2_nonneg d) as Hd0.
  set (c := (Z.log2 n - Z.log2 d)%Z).
  destruct (Z.ltb_spec (n * pow2 (- c)) (d * pow2 c)) as [Hlt|Hge]; intros Hc.
  - assert (2 ^ Z.log2 n = 2 ^ Z.succ (Z.log2 d) * 2 ^ (c - 1))%Z as E
      by (rewrite <- Z.pow_add_r by lia; f_equal; lia).
    assert (0 < 2 ^ (c - 1))%Z by (apply Z.pow_pos_nonneg; lia).
    nia.
  - rewrite (pow2_nonpos (- c)), (pow2_nonneg c) in Hge by lia. lia.
Qed.

(** The first total whose page count falls below the ceiling of its
    tenth: 10 * 2^51 + 12. *)
Definition first_total_rounded_down : Z := 22517998136852492.

(** The doubles above 2^53 are even, and those above 2^54 are multiples
    of 4. *)
Lemma is_double_spacing (z : Z) :
  (0 < z)%Z → is_double z = true →
  ((2 ^ 53 < z)%Z → (z `mod` 2 = 0)%Z) ∧
  ((2 ^ 54 < z)%Z → (z `mod` 4 = 0)%Z).
Proof.
  intros Hz Hd. apply Qeq_bool_iff in Hd. unfold binary64 in Hd.
  cbn [inject_Z Qnum Qden] in Hd. destruct z as [|n|n]; try lia.
  unfold binary64_pos, floor_log2 in Hd.
  change (Z.log2 1) with 0%Z in Hd. rewrite Z.sub_0_r in Hd.
  pose proof (Z.log2_spec (Z.pos n) ltac:(lia)) as [Hlow Hhigh].
  pose proof (Z.log2_nonneg (Z.pos n)) as Hlog0.
  set (L := Z.log2 (Z.pos n)) in *.
  rewrite (pow2_nonpos (- L)), (pow2_nonneg L) in Hd by lia.
  destruct (Z.ltb_spec (Z.pos n * 1) (1 * 2 ^ L)) as [Hlt|_]; [lia|].
  assert (∀ k, (0 ≤ k)%Z → (2 ^ (52 + k) < Z.pos n)%Z → (k ≤ L - 52)%Z →
               (Z.pos n `mod` 2 ^ k = 0)%Z) as Hmultiple.
  { intros k Hk _ HkL.
    rewrite (pow2_nonneg (L - 52)), (pow2_nonpos (- (L - 52))) in Hd by lia.
    unfold Qeq in Hd. cbn [Qnum Qden Z.to_pos inject_Z] in Hd.
    rewrite !Z.mul_1_r in Hd. rewrite <- Hd.
    replace (L - 52)%Z with (L - 52 - k + k)%Z at 2 by lia.
    rewrite Z.pow_add_r by lia. rewrite Z.mul_assoc.
    apply Z.mod_mul. apply Z.pow_nonzero; lia. }
  assert (∀ k, (2 ^ k < Z.pos n)%Z → (0 ≤ k)%Z → (k ≤ L)%Z) as Hlog.
  { intros k Hk Hk0. destruct (decide (k ≤ L)%Z) as [|Hgt]; [done|].
    pose proof (Z.pow_le_mono_r 2 (Z.succ L) k ltac:(lia) ltac:(lia)). lia. }
  split; intros Hbig.
  - apply (Hmultiple 1%Z); [lia|done|]. specialize (Hlog 53%Z Hbig). lia.
  - apply (Hmultiple 2%Z); [lia|done|]. specialize (Hlog 54%Z Hbig). lia.
Qed.

(** The ceiling of the rounded tenth is the ceiling of the tenth, for every
    total below [first_total_rounded_down] that is even when it exceeds
    2^53 and a multiple of 4 when it exceeds 2^54. *)
Lemma Qceiling_binary64_tenth (total : Z) :
  (0 ≤ total < first_total_rounded_down)%Z →
  ((2 ^ 53 < total)%Z → (total `mod` 2 = 0)%Z) →
  ((2 ^ 54 < total)%Z → (total `mod` 4 = 0)%Z) →
  Qceiling (binary64 (inject_Z total / inject_Z 10)%Q) =
    (- ((- total) `div` 10))%Z.
Proof.
  unfold first_total_rounded_down. intros Ht Heven Hfour.
  destruct (decide (total = 0%Z)) as [->|Hpos]; [done|].
  pose proof (floor_log2_lower total 10 ltac:(lia) ltac:(lia)) as Hlow.
  assert (floor_log2 total 10 ≤ 51)%Z as Hc.
  { destruct (decide (52 ≤ floor_log2 total 10)%Z) as [Hbig|]; [|lia].
    pose proof (Z.pow_le_mono_r 2 52 _ ltac:(lia) Hbig).
    specialize (Hlow ltac:(lia)). lia. }
  destruct (decide (floor_log2 total 10 = 51%Z)) as [E|Hne].
  { rewrite E in Hlow. specialize (Hlow ltac:(lia)).
    specialize (Hfour ltac:(lia)).
    pose proof (Z.div_mod total 4 ltac:(lia)) as Hquarter.
    rewrite Hfour, Z.add_0_r in Hquarter.
    assert (total `div` 4 = 5629499534213120 ∨
            total `div` 4 = 5629499534213121 ∨
            total `div` 4 = 5629499534213122)%Z as Hcases by lia.
    rewrite Hquarter. destruct Hcases as [->|[->| ->]]; by vm_compute. }
  assert (floor_log2 total 10 ≤ 49 ∨
          floor_log2 total 10 = 50 ∧ total `mod` 2 = 0)%Z as Hspacing.
  { destruct (decide (floor_log2 total 10 = 50%Z)) as [E|]; [|lia].
    right. split; [done|]. rewrite E in Hlow. specialize (Hlow ltac:(lia)).
    apply Heven. lia. }
  clear Hlow Heven Hfour.
  unfold binary64, Qdiv, Qmult, Qinv, inject_Z.
  cbn [Qnum Qden Pos.mul]. rewrite Z.mul_1_r.
  destruct total as [|n|n]; [done| |lia].
  unfold binary64_pos. change (1 * 10)%positive with 10%positive.
  set (e := (floor_log2 (Z.pos n) 10 - 52)%Z) in *.
  rewrite (pow2_nonpos e), (pow2_nonneg (- e)) by lia.
  rewrite !Z.mul_1_r.
  set (P := (2 ^ (- e))%Z).
  assert (4 ≤ P)%Z as HP4.
  { subst P. change 4%Z with (2 ^ 2)%Z. apply Z.pow_le_mono_r; lia. }
  assert (8 ≤ P ∨ Z.pos n `mod` 2 = 0)%Z as HP.
  { destruct Hspacing as [H49|[_ Hev]]; [left|by right].
    subst P. change 8%Z with (2 ^ 3)%Z. apply Z.pow_le_mono_r; lia. }
  pose proof (round_half_even_near (Z.pos n * P) 10 ltac:(lia)) as Hm.
  set (m := round_half_even (Z.pos n * P) 10) in *.
  unfold Qceiling, Qfloor, Qopp. cbn [Qnum Qden].
  rewrite Z2Pos.id by lia.
  pose proof (Z.div_mod (- Z.pos n) 10 ltac:(lia)) as Hdm.
  pose proof (Z.mod_pos_bound (- Z.pos n) 10 ltac:(lia)) as Hr.
  set (j := ((- Z.pos n) `div` 10)%Z) in *.
  set (r := ((- Z.pos n) `mod` 10)%Z) in *.
  assert (5 < (10 - r) * P)%Z as Hgap.
  { destruct HP as [HP8|Hev]; [nia|].
    assert (∃ h, Z.pos n = 2 * h)%Z as [h Hh].
    { exists (Z.pos n `div` 2)%Z.
      pose proof (Z.div_mod (Z.pos n) 2 ltac:(lia)). lia. }
    clearbody r j m. assert (r ≤ 8)%Z by lia. nia. }
  f_equal. symmetry. apply (Z.div_unique _ _ _ (- m - P * j)); nia.
Qed.

(** C10 (as amended): for a total that is a double, from 0 up to
    22517998136852491, the division of doubles followed by [Math.ceil]
    gives the ceiling of total / 10, that is the one integer k with
    10 (k - 1) < total <= 10 k; it is 0 for total 0, 1 for totals 1 to 10
    and 2 for totals 11 to 20.  On this range the page count on the exact
    quotient, [totalPages], is the same. *)
Theorem totalPages_is_ceiling (total : Z) :
  (0 ≤ total < first_total_rounded_down)%Z →
  is_double total = true →
  ∃ k : Z, totalPages_binary64 (Int total) = Int k ∧
    totalPages (Int total) = Int k ∧
    (10 * (k - 1) < total ≤ 10 * k)%Z ∧
    (total = 0%Z → k = 0%Z) ∧
    ((1 ≤ total ≤ 10)%Z → k = 1%Z) ∧
    ((11 ≤ total ≤ 20)%Z → k = 2%Z).
Proof.
  intros Hrange Hdouble. exists (- ((- total) `div` 10))%Z.
  unfold totalPages_binary64, totalPages, Math_ceil_div10.
  rewrite Qceiling_div10.
  rewrite Qceiling_binary64_tenth;
    [|done|intros; apply is_double_spacing; [lia|done..]..].
  pose proof (Z.div_mod (- total) 10 ltac:(lia)) as Hdm.
  pose proof (Z.mod_pos_bound (- total) 10 ltac:(lia)) as Hb.
  split; [done|]. split; [done|]. split_and!; intros; lia.
Qed.

(** The page count of 15 results. *)
Lemma totalPages_is_ceiling_witness :
  (0 ≤ 15 < first_total_rounded_down)%Z ∧ is_double 15 = true ∧
  ∃ k : Z, totalPages_binary64 (Int 15) = Int k ∧
    totalPages (Int 15) = Int k ∧
    (10 * (k - 1) < 15 ≤ 10 * k)%Z ∧
    (15%Z = 0%Z → k = 0%Z) ∧
    ((1 ≤ 15 ≤ 10)%Z → k = 1%Z) ∧
    ((11 ≤ 15 ≤ 20)%Z → k = 2%Z).
Proof.
  split; [by vm_compute|]. split; [by vm_compute|].
  apply (totalPages_is_ceiling 15); by vm_compute.
Defined.

(** C10, counterexample to the claim as stated: 22517998136852492 is a
    double (four times an integer below 2^53) and a tenth of it lies
    between 2^51 and 2^52, where doubles are half a unit apart; the
    quotient 2251799813685249.2 rounds down to the integer below it, so
    the page count is one less than the ceiling of total / 10. *)
Lemma totalPages_rounds_below_ceiling :
  let total := first_total_rounded_down in
  (0 ≤ total)%Z ∧ is_double total = true ∧
  totalPages_binary64 (Int total) = Int 2251799813685249 ∧
  (10 * (2251799813685250 - 1) < total ≤ 10 * 2251799813685250)%Z ∧
  totalPages_binary64 (Int total) ≠ Int 2251799813685250.
Proof.
  split; [by vm_compute|]. split; [by vm_compute|]. split; [by vm_compute|].
  split; [by vm_compute|by vm_compute].
Qed.

(** ** The search controller *)

Lemma truthy_string_Some (s : string) : s ≠ "" → truthy_string (Some s) = true.
Proof. by destruct s. Qed.

(** Unfolds a controller run down to the case analysis on what the
    network and the reply do. *)
Ltac run_controller :=
  unfold run_search, doSearch, run_load, load, try_catch_finally, fetch_json,
    eval, setLoading, setError, setResults, setTotal, d_setLoading, d_setError,
    setData, set, mbind, mret, Eff_bind, Eff_ret;
  rewrite ?truthy_string_Some by done; simpl.

Lemma Get_not_null (o : json) (k : string) :
  o ≠ JNull → Get o k = Normal (property o k).
Proof. by destruct o. Qed.

(** [a || b] is truthy as soon as [b] is. *)
Lemma or_else_truthy (a : option json) (b : json) :
  ToBoolean (Some b) = true → ToBoolean (Some (or_else a b)) = true.
Proof.
  intros Hb. unfold or_else. destruct (ToBoolean a) eqn:E; [|done].
  by destruct a.
Qed.

Lemma doSearch_call_issued (apiKey q : string) (p : Z) (st : SearchState) :
  q ≠ "" → apiKey ≠ "" →
  doSearch_call apiKey q p st =
    ({| loading := true; error := JStr "";
        results := results st; total := total st |},
     [SearchRequest apiKey q p]).
Proof.
  intros Hq Hk. unfold doSearch_call.
  by rewrite !truthy_string_Some by done.
Qed.

Lemma doSearch_call_skipped (apiKey q : string) (p : Z) (st : SearchState) :
  q = "" ∨ apiKey = "" → doSearch_call apiKey q p st = (st, []).
Proof. intros [-> | ->]; unfold doSearch_call; [done|by destruct q]. Qed.

(** [doSearch] run to completion is its part before the [await] followed
    by its part after it, on the outcome the network gives. *)
Lemma doSearch_phases (StringToNumber : string → number)
    (network : Request → completion json) (apiKey q : string) (p : Z)
    (st : SearchState) :
  q ≠ "" → apiKey ≠ "" →
  run_search StringToNumber network apiKey q p st =
    (let '(_, st1, _) := search_started st [] in
     let '(_, st2, _) :=
       search_arrived StringToNumber
         (network (SearchRequest apiKey q p)) st1 [] in
     st2,
     (doSearch_call apiKey q p st).2).
Proof.
  intros Hq Hk. rewrite doSearch_call_issued by done.
  unfold search_started, search_arrived. run_controller.
  destruct (network (SearchRequest apiKey q p)) as [data|]; simpl; [|done].
  destruct (Get data "Response") as [Response|]; simpl; [|done].
  destruct (strict_eq_string Response "False"); simpl.
  - by destruct (Get data "Error").
  - destruct (Get data "Search"); simpl; [|done].
    by destruct (Get data "totalResults").
Qed.

Section SearchFacts.
Variable StringToNumber : string → number.
Variable network : Request → completion json.

(** What the arrival of an outcome does to the state it finds. *)
Lemma search_arrival_thrown (outcome : completion json) (st : SearchState) :
  outcome = Throw ∨ outcome = Normal JNull →
  search_arrival StringToNumber outcome st =
    {| loading := false;
       error := JStr "Ocorreu um erro na busca. Verifique sua conexão e tente novamente.";
       results := results st; total := total st |}.
Proof. by intros [->| ->]. Qed.



(** With nothing in between, the outcome finds the state that the call
    left. *)
Lemma run_search_arrival (apiKey q : string) (p : Z) (st : SearchState) :
  q ≠ "" → apiKey ≠ "" →
  run_search StringToNumber network apiKey q p st =
    (search_arrival StringToNumber (network (SearchRequest apiKey q p))
       (doSearch_call apiKey q p st).1,
     [SearchRequest apiKey q p]).
Proof.
  intros Hq Hk. rewrite doSearch_phases by done.
  by rewrite doSearch_call_issued by done.
Qed.

Lemma run_search_no_results (apiKey q : string) (p : Z) (st : SearchState)
    (data : json) :
  q ≠ "" → apiKey ≠ "" →
  network (SearchRequest apiKey q p) = Normal data → data ≠ JNull →
  strict_eq_string (property data "Response") "False" = true →
  run_search StringToNumber network apiKey q p st =
    ({| loading := false;
        error := or_else (property data "Error")
                   (JStr "Nenhum resultado encontrado.");
        results := []; total := Int 0 |},
     [SearchRequest apiKey q p]).
Proof.
  intros Hq Hk Hnet Hdata HF. run_controller. rewrite Hnet. simpl.
  rewrite !Get_not_null by done. simpl. by rewrite HF.
Qed.

(** C6: with an empty term or without a credential, [doSearch] issues no
    request and leaves loading, error, results and total as they were. *)
Theorem doSearch_skipped (apiKey q : string) (p : Z) (st : SearchState) :
  q = "" ∨ apiKey = "" →
  run_search StringToNumber network apiKey q p st = (st, []).
Proof.
  intros [-> | ->]; unfold run_search, doSearch; [done|].
  by destruct q.
Qed.

(** C7: when the reply has Response "False", the result list is empty,
    the total is 0 and the error is the reply's Error when that is truthy,
    and "Nenhum resultado encontrado." when it is missing or falsy. *)
Theorem doSearch_no_results (apiKey q : string) (p : Z) (st : SearchState)
    (reply : gmap string json) :
  q ≠ "" → apiKey ≠ "" →
  network (SearchRequest apiKey q p) = Normal (JObj reply) →
  reply !! "Response" = Some (JStr "False") →
  let st' := (run_search StringToNumber network apiKey q p st).1 in
  results st' = [] ∧ total st' = Int 0 ∧ loading st' = false ∧
  (∀ msg, reply !! "Error" = Some msg → ToBoolean (Some msg) = true →
          error st' = msg) ∧
  (reply !! "Error" = None ∨
   (∃ msg, reply !! "Error" = Some msg ∧ ToBoolean (Some msg) = false) →
   error st' = JStr "Nenhum resultado encontrado.").
Proof.
  intros Hq Hk Hnet Hresp.
  rewrite (run_search_no_results _ _ _ _ (JObj reply)); [simpl|try done..];
    [|unfold property; by rewrite Hresp].
  split_and!; try done.
  - intros msg -> Hmsg. unfold or_else, ToBoolean. by rewrite Hmsg.
  - intros [-> | (msg & -> & Hmsg)]; unfold or_else, ToBoolean;
      [done|by rewrite Hmsg].
Qed.

(** C4 (as amended): when the fetch or the JSON decoding throws, the error
    becomes the generic message that suggests a retry and loading ends;
    the result list and the total are left as the failure finds them, in
    the state [st] that holds when it arrives: they are not cleared.  With
    nothing running between the call and the failure, they are those from
    before the call. *)
Theorem doSearch_thrown (apiKey q : string) (p : Z) (st0 st : SearchState) :
  q ≠ "" → apiKey ≠ "" →
  network (SearchRequest apiKey q p) = Throw →
  let st' :=
    search_arrival StringToNumber (network (SearchRequest apiKey q p)) st in
  let alone := (run_search StringToNumber network apiKey q p st0).1 in
  error st' =
    JStr "Ocorreu um erro na busca. Verifique sua conexão e tente novamente." ∧
  loading st' = false ∧
  results st' = results st ∧ total st' = total st ∧
  alone =
    search_arrival StringToNumber (network (SearchRequest apiKey q p))
      (doSearch_call apiKey q p st0).1 ∧
  results alone = results st0 ∧ total alone = total st0.
Proof.
  intros Hq Hk Hnet. cbv zeta.
  rewrite run_search_arrival, doSearch_call_issued by done.
  rewrite !search_arrival_thrown by auto. done.
Qed.

End SearchFacts.

(** A search with an empty term, on the initial state. *)
Lemma doSearch_skipped_witness :
  ("" = "" ∨ "k" = "") ∧
  run_search StringToNumber_decimal (λ _, Normal sample_found) "k" "" 1
    SearchState_init = (SearchState_init, []).
Proof.
  split; [by left|].
  apply (doSearch_skipped StringToNumber_decimal (λ _, Normal sample_found)
           "k" "" 1 SearchState_init).
  by left.
Defined.

(** A search that the API answers with "Movie not found!". *)
Lemma doSearch_no_results_witness :
  "matrix" ≠ "" ∧ "k" ≠ "" ∧
  sample_not_found !! "Response" = Some (JStr "False") ∧
  let st' := (run_search StringToNumber_decimal
                (λ _, Normal (JObj sample_not_found)) "k" "matrix" 1
                SearchState_init).1 in
  results st' = [] ∧ total st' = Int 0 ∧ loading st' = false.
Proof.
  split_and!; [done..|].
  pose proof (doSearch_no_results StringToNumber_decimal
                (λ _, Normal (JObj sample_not_found)) "k" "matrix" 1
                SearchState_init sample_not_found
                ltac:(done) ltac:(done) eq_refl eq_refl) as H.
  exact (conj (proj1 H) (conj (proj1 (proj2 H)) (proj1 (proj2 (proj2 H))))).
Defined.

(** A search that throws while the list of an earlier search is in place. *)
Lemma doSearch_thrown_witness :
  let st := {| loading := true; error := JStr "";
               results := [sample_movie]; total := Int 1 |} in
  "matrix" ≠ "" ∧ "k" ≠ "" ∧
  let st' := search_arrival StringToNumber_decimal Throw st in
  error st' =
    JStr "Ocorreu um erro na busca. Verifique sua conexão e tente novamente." ∧
  loading st' = false ∧
  results st' = [sample_movie] ∧ total st' = Int 1.
Proof.
  split_and!; [done..|].
  pose proof (doSearch_thrown StringToNumber_decimal (λ _, Throw) "k" "matrix" 2
                SearchState_init
                {| loading := true; error := JStr "";
                   results := [sample_movie]; total := Int 1 |}
                ltac:(done) ltac:(done) eq_refl) as H.
  exact (conj (proj1 H) (conj (proj1 (proj2 H))
          (conj (proj1 (proj2 (proj2 H)))
                (proj1 (proj2 (proj2 (proj2 H))))))).
Defined.



(** C4, counterexample to the claim as stated: the search that throws does
    not clear the list that the search before it stored. *)
Lemma doSearch_thrown_keeps_results :
  let st := {| loading := false; error := JStr "";
               results := [sample_movie]; total := Int 1 |} in
  let st' := (run_search StringToNumber_decimal (λ _, Throw)
                "k" "matrix" 2 st).1 in
  (run_search StringToNumber_decimal (λ _, Normal sample_found)
     "k" "matrix" 1 SearchState_init).1 = st ∧
  results st' = [sample_movie] ∧ results st' ≠ [] ∧ total st' = Int 1.
Proof. by vm_compute. Qed.

(** ** The detail controller *)

Section DetailFacts.
Variable network : Request → completion json.

Lemma run_load_thrown (apiKey id : string) (st : DetailState) :
  network (DetailRequest apiKey id) = Throw ∨
  network (DetailRequest apiKey id) = Normal JNull →
  run_load network apiKey id st =
    ({| d_loading := false;
        d_error := JStr "Ocorreu um erro ao carregar os detalhes.";
        data := data st |},
     [DetailRequest apiKey id]).
Proof. intros [Hnet|Hnet]; run_controller; by rewrite Hnet. Qed.

(** What the arrival of an outcome does to the state it finds. *)
Lemma load_arrival_thrown (outcome : completion json) (st : DetailState) :
  outcome = Throw ∨ outcome = Normal JNull →
  load_arrival outcome st =
    {| d_loading := false;
       d_error := JStr "Ocorreu um erro ao carregar os detalhes.";
       data := data st |}.
Proof. by intros [->| ->]. Qed.

Lemma load_arrival_not_found (json : json) (st : DetailState) :
  json ≠ JNull →
  strict_eq_string (property json "Response") "False" = true →
  load_arrival (Normal json) st =
    {| d_loading := false;
       d_error := or_else (property json "Error")
                    (JStr "Não foi possível obter os detalhes.");
       data := JNull |}.
Proof.
  intros Hjson HF. unfold load_arrival, load_arrived. run_controller.
  rewrite !Get_not_null by done. simpl. by rewrite HF.
Qed.

Lemma load_arrival_found (json : json) (st : DetailState) :
  json ≠ JNull →
  strict_eq_string (property json "Response") "False" = false →
  load_arrival (Normal json) st =
    {| d_loading := false; d_error := d_error st; data := json |}.
Proof.
  intros Hjson HF. unfold load_arrival, load_arrived. run_controller.
  rewrite !Get_not_null by done. simpl. by rewrite HF.
Qed.

Lemma load_call_issued (apiKey id : string) (st : DetailState) :
  load_call apiKey id st =
    ({| d_loading := true; d_error := JStr ""; data := data st |},
     [DetailRequest apiKey id]).
Proof. done. Qed.

(** [load] run to completion is its part before the [await] followed by
    its part after it, on the outcome the network gives: with nothing in
    between, the outcome finds the state that the call left. *)
Lemma load_phases (apiKey id : string) (st : DetailState) :
  run_load network apiKey id st =
    (load_arrival (network (DetailRequest apiKey id))
       (load_call apiKey id st).1,
     (load_call apiKey id st).2).
Proof.
  rewrite load_call_issued. unfold load_arrival, load_arrived.
  run_controller.
  destruct (network (DetailRequest apiKey id)) as [json|]; simpl; [|done].
  destruct (Get json "Response") as [Response|]; simpl; [|done].
  destruct (strict_eq_string Response "False"); simpl; [|done].
  by destruct (Get json "Error").
Qed.

(** C5 (as amended): a detail load that gets a Response "False" reply sets
    the error (to the reply's Error, or to a default message) and sets the
    data to null.  A detail load that throws sets the error to the generic
    message and leaves the data as the failure finds it, in the state [st]
    that holds when it arrives.  With nothing running between the call and
    the failure, that is the data from before the call: null on a first
    load, the record of the earlier load otherwise. *)
Theorem load_failure (apiKey id : string) (st0 st : DetailState) :
  let url := DetailRequest apiKey id in
  let st' := load_arrival (network url) st in
  let alone := (run_load network apiKey id st0).1 in
  (∀ json Response,
     network url = Normal json → Get json "Response" = Normal Response →
     strict_eq_string Response "False" = true →
     ToBoolean (Some (d_error st')) = true ∧
     d_error st' = or_else (property json "Error")
                     (JStr "Não foi possível obter os detalhes.") ∧
     data st' = JNull ∧ d_loading st' = false) ∧
  (network url = Throw →
     d_error st' = JStr "Ocorreu um erro ao carregar os detalhes." ∧
     data st' = data st ∧ d_loading st' = false ∧
     alone = load_arrival (network url) (load_call apiKey id st0).1 ∧
     data alone = data st0 ∧
     (data st0 = JNull → data alone = JNull)).
Proof.
  intros url st' alone. split.
  - intros json Response Hnet HR HF.
    assert (json ≠ JNull) as Hjson by (by intros ->).
    rewrite Get_not_null in HR by done. injection HR as <-.
    subst st'. rewrite Hnet, load_arrival_not_found by done.
    cbn [d_error data d_loading]. split_and!; try done.
    by apply or_else_truthy.
  - intros Hnet. subst st' alone. rewrite load_phases, load_call_issued.
    cbn [fst]. rewrite !load_arrival_thrown by auto.
    by cbn [d_error data d_loading].
Qed.
End DetailFacts.

(** C5, counterexample to the claim as stated: the component is kept when
    only the id of the route changes, so a load that throws after a load
    that succeeded leaves the earlier record in place, next to the error. *)
Lemma load_thrown_keeps_data :
  let st1 := (run_load (λ _, Normal sample_detail) "k" "tt0133093"
                DetailState_init).1 in
  let st2 := (run_load (λ _, Throw) "k" "tt0000001" st1).1 in
  data st1 = sample_detail ∧
  d_error st2 = JStr "Ocorreu um erro ao carregar os detalhes." ∧
  data st2 = sample_detail ∧ data st2 ≠ JNull.
Proof. by vm_compute. Qed.

(** ** The JSON text of the stored values *)

Module JSONTextFacts.
Import JSONText.

Lemma parse_emit_char (c : ascii) (k : string) :
  parse_chars (emit_char c k) =
    match parse_chars k with
    | Some (x, k') => Some (String c x, k')
    | None => None
    end.
Proof. destruct c as [[] [] [] [] [] [] [] []]; reflexivity. Qed.

Lemma parse_emit_chars (s k : string) :
  parse_chars (emit_chars s (String dquote k)) = Some (s, k).
Proof.
  induction s as [|c s IH]; [done|].
  cbn [emit_chars]. by rewrite parse_emit_char, IH.
Qed.

Lemma parse_emit_string (s k : string) :
  parse_string (emit_string s k) = Some (s, k).
Proof. unfold emit_string. cbn [parse_string]. apply parse_emit_chars. Qed.

Lemma emit_char_length (c : ascii) (k : string) :
  String.length k < String.length (emit_char c k).
Proof. destruct c as [[] [] [] [] [] [] [] []]; simpl; lia. Qed.

Lemma emit_chars_length (s k : string) :
  String.length k ≤ String.length (emit_chars s k).
Proof.
  induction s as [|c s IH]; [done|]. cbn [emit_chars].
  pose proof (emit_char_length c (emit_chars s k)). lia.
Qed.

Lemma emit_string_length (s k : string) :
  String.length k ≤ String.length (emit_string s k).
Proof.
  unfold emit_string.
  pose proof (emit_chars_length s (String dquote k)). simpl in *. lia.
Qed.

Section Objects.
Context {V : Type}.
Variable emit_value : V → string → string.
Variable parse_value : string → option (V * string).
Hypothesis parse_emit_value :
  ∀ v k, parse_value (emit_value v k) = Some (v, k).
Hypothesis emit_value_length :
  ∀ v k, String.length k ≤ String.length (emit_value v k).

Lemma parse_emit_member (m : string * V) (k : string) :
  parse_member parse_value (emit_member emit_value m k) = Some (m, k).
Proof.
  destruct m as [name v]. unfold parse_member, emit_member.
  rewrite parse_emit_string. simpl. by rewrite parse_emit_value.
Qed.

Lemma emit_member_length (m : string * V) (k : string) :
  String.length k ≤ String.length (emit_member emit_value m k).
Proof.
  unfold emit_member.
  pose proof (emit_string_length m.1 (String ":" (emit_value m.2 k))).
  pose proof (emit_value_length m.2 k). simpl in *. lia.
Qed.

Lemma emit_members_length (l : list (string * V)) (k : string) :
  length l < String.length (emit_members emit_value l k).
Proof.
  induction l as [|m l IH]; cbn [emit_members String.length length]; [lia|].
  pose proof (emit_member_length m (emit_members emit_value l k)). lia.
Qed.

Lemma parse_emit_members (l : list (string * V)) (k : string) (fuel : nat) :
  length l < fuel →
  parse_members parse_value fuel (emit_members emit_value l k) = Some (l, k).
Proof.
  revert fuel. induction l as [|m l IH]; intros [|fuel] Hfuel;
    simpl in Hfuel; try lia; [done|].
  cbn [emit_members parse_members]. simpl.
  rewrite parse_emit_member. by rewrite IH by lia.
Qed.

Lemma parse_emit_object (l : list (string * V)) (k : string) :
  parse_object parse_value (emit_object emit_value l k) = Some (l, k).
Proof.
  destruct l as [|m l]; [done|].
  unfold emit_object, parse_object.
  rewrite parse_emit_member. rewrite parse_emit_members; [done|].
  pose proof (emit_members_length l k).
  pose proof (emit_member_length m (emit_members emit_value l k)).
  cbn [String.length]. lia.
Qed.

Lemma emit_members_grows (l : list (string * V)) (k : string) :
  String.length k ≤ String.length (emit_members emit_value l k).
Proof.
  induction l as [|m l IH]; cbn [emit_members String.length]; [lia|].
  pose proof (emit_member_length m (emit_members emit_value l k)). lia.
Qed.

Lemma emit_object_length (l : list (string * V)) (k : string) :
  String.length k ≤ String.length (emit_object emit_value l k).
Proof.
  destruct l as [|m l]; cbn [emit_object String.length]; [lia|].
  pose proof (emit_members_grows l k).
  pose proof (emit_member_length m (emit_members emit_value l k)). lia.
Qed.
End Objects.

Lemma record_of_record_members (r : Fav.t) :
  record_of_members (record_members r) = Some r.
Proof. by destruct r as [id title year [poster|] type]. Qed.

Lemma parse_emit_record (r : Fav.t) (k : string) :
  parse_record (emit_record r k) = Some (r, k).
Proof.
  unfold parse_record, emit_record.
  rewrite parse_emit_object
    by (apply parse_emit_string || apply emit_string_length).
  by rewrite record_of_record_members.
Qed.

Lemma emit_record_length (r : Fav.t) (k : string) :
  String.length k ≤ String.length (emit_record r k).
Proof. apply emit_object_length, emit_string_length. Qed.

#[export] Instance JSONLaws_string : JSONLaws string.
Proof.
  split; intros v; unfold JSON_parse, JSON_stringify, JSON_string.
  - by rewrite parse_emit_string.
  - done.
Qed.

#[export] Instance JSONLaws_favorites : JSONLaws (gmap string Fav.t).
Proof.
  split; intros m; unfold JSON_parse, JSON_stringify, JSON_favorites.
  - rewrite parse_emit_object
      by (apply parse_emit_record || apply emit_record_length).
    cbn [complete]. f_equal. symmetry.
    apply list_to_map_flip. symmetry. apply reverse_Permutation.
  - by destruct (map_to_list m).
Qed.
End JSONTextFacts.

Import JSONText JSONTextFacts.

(** ** The favourites store *)

Lemma toggleFavorite_present (movie : Movie) (m : gmap string Fav.t) (r : Fav.t) :
  m !! imdbID movie = Some r →
  toggleFavorite movie m = delete (imdbID movie) m.
Proof. intros H. unfold toggleFavorite, truthy_at. by rewrite H. Qed.

Lemma toggleFavorite_inherited (movie : Movie) (m : gmap string Fav.t) :
  m !! imdbID movie = None → imdbID movie ∈ ObjectPrototype →
  toggleFavorite movie m = m.
Proof.
  intros H Hin. unfold toggleFavorite, truthy_at. rewrite H.
  rewrite bool_decide_eq_true_2 by done. by apply delete_id.
Qed.

Lemma toggleFavorite_absent (movie : Movie) (m : gmap string Fav.t) :
  m !! imdbID movie = None → imdbID movie ∉ ObjectPrototype →
  toggleFavorite movie m = <[imdbID movie := favorite_of movie]> m.
Proof.
  intros H Hin. unfold toggleFavorite, truthy_at. rewrite H.
  by rewrite bool_decide_eq_false_2 by done.
Qed.

(** C2 (as amended): for an item whose id is not a name that objects
    inherit, toggling the item twice gives back the mapping exactly when
    the id is no key of the mapping, or the mapping holds under that id the
    very record that toggling the item stores.  When the id is stored with
    any record, the two toggles leave the mapping with the record derived
    from the item under that id, and all other keys as they were. *)
Theorem toggleFavorite_twice (movie : Movie) (m : gmap string Fav.t) :
  imdbID movie ∉ ObjectPrototype →
  let twice := toggleFavorite movie (toggleFavorite movie m) in
  (twice = m ↔
   m !! imdbID movie = None ∨ m !! imdbID movie = Some (favorite_of movie)) ∧
  (∀ r, m !! imdbID movie = Some r →
        twice = <[imdbID movie := favorite_of movie]> m).
Proof.
  intros Hin twice. subst twice.
  destruct (m !! imdbID movie) as [r|] eqn:Hm.
  - rewrite (toggleFavorite_present movie m r Hm).
    rewrite toggleFavorite_absent by (by rewrite ?lookup_delete_eq).
    rewrite insert_delete_eq. split; [|done]. split.
    + intros E. apply (f_equal (lookup (imdbID movie))) in E.
      rewrite lookup_insert_eq, Hm in E. right. congruence.
    + intros [?|E]; [done|]. injection E as ->. by apply insert_id.
  - split; [|done]. split; [by left|intros _].
    rewrite (toggleFavorite_absent movie m) by done.
    rewrite (toggleFavorite_present movie _ (favorite_of movie))
      by apply lookup_insert_eq.
    rewrite delete_insert_eq. by apply delete_id.
Qed.

(** "The Matrix", toggled twice on the mapping that holds it and on the
    empty mapping. *)
Lemma toggleFavorite_twice_witness :
  let m : gmap string Fav.t := {[ "tt0133093" := favorite_of matrix ]} in
  (imdbID matrix ∉ ObjectPrototype) ∧
  (toggleFavorite matrix (toggleFavorite matrix m) = m ↔
   m !! imdbID matrix = None ∨ m !! imdbID matrix = Some (favorite_of matrix)) ∧
  (toggleFavorite matrix (toggleFavorite matrix ∅) = ∅ ↔
   (∅ : gmap string Fav.t) !! imdbID matrix = None ∨
   (∅ : gmap string Fav.t) !! imdbID matrix = Some (favorite_of matrix)).
Proof.
  assert (imdbID matrix ∉ ObjectPrototype) as Hin by compute_done.
  split; [done|]. split.
  - exact (proj1 (toggleFavorite_twice matrix
                    {[ "tt0133093" := favorite_of matrix ]} Hin)).
  - exact (proj1 (toggleFavorite_twice matrix ∅ Hin)).
Defined.

(** C2, counterexample to the claim as stated: with "tt0133093" stored as
    "The Matrix", toggling twice an item of the same id whose title is
    "Matrix" leaves the id stored as "Matrix". *)
Lemma toggleFavorite_twice_replaces :
  let m : gmap string Fav.t := {[ "tt0133093" := favorite_of matrix ]} in
  let m' := toggleFavorite matrix_retitled (toggleFavorite matrix_retitled m) in
  m = toggleFavorite matrix ∅ ∧
  m' !! "tt0133093" = Some (favorite_of matrix_retitled) ∧
  m' ≠ m.
Proof.
  split_and!; [by vm_compute..|].
  intros E. apply (f_equal (lookup "tt0133093")) in E. by vm_compute in E.
Qed.

Lemma toggleFavorite_key_is_id (movie : Movie) (m : gmap string Fav.t) :
  key_is_id m → key_is_id (toggleFavorite movie m).
Proof.
  intros Hm k r. unfold toggleFavorite.
  destruct (truthy_at m (imdbID movie)).
  - intros [_ H]%lookup_delete_Some. by apply Hm.
  - intros [[<- <-]|[_ H]]%lookup_insert_Some; [done|by apply Hm].
Qed.

Lemma toggles_key_is_id (movies : list Movie) (m : gmap string Fav.t) :
  key_is_id m → key_is_id (foldl (λ m movie, toggleFavorite movie m) m movies).
Proof.
  revert m. induction movies as [|movie movies IH]; intros m Hm; [done|].
  simpl. by apply IH, toggleFavorite_key_is_id.
Qed.

(** ** The storage hook *)

Section useLocalStorageFacts.
Context {A : Type} `{JSONLaws A}.

Lemma getItem_setItem (st st' : Storage) (key value : string) :
  setItem st key value = Normal st' → getItem st' key = Normal (Some value).
Proof.
  unfold setItem, getItem. destruct (accessible st); [|done].
  case_decide; [|done]. intros [= <-]. simpl. by rewrite lookup_insert_eq.
Qed.

(** Reading back what the effect has written. *)
Lemma useLocalStorage_init_written (st st' : Storage) (key : string) (d v : A) :
  setItem st key (JSON_stringify v) = Normal st' →
  useLocalStorage_init st' key d = v.
Proof.
  intros Hset. unfold useLocalStorage_init.
  rewrite (getItem_setItem _ _ _ _ Hset).
  pose proof (stringify_nonempty v) as Hne.
  destruct (JSON_stringify v) as [|c s] eqn:E; [done|].
  simpl. by rewrite <- E, parse_stringify.
Qed.

(** The effect either writes the value, which a later read returns, or
    leaves the storage as it was. *)
Lemma useLocalStorage_effect_cases (st : Storage) (key : string) (v : A) :
  (∀ d, useLocalStorage_init (useLocalStorage_effect st key v) key d = v) ∨
  useLocalStorage_effect st key v = st.
Proof.
  unfold useLocalStorage_effect.
  destruct (setItem st key (JSON_stringify v)) as [st'|] eqn:Hset; [|by right].
  left. intros d. by apply useLocalStorage_init_written with st.
Qed.

(** C9 (as amended): reading never raises, and it returns the default when
    the key holds nothing, when the stored text does not parse and when
    storage cannot be read.  When the write goes through (storage is
    accessible and the quota suffices), a read after a write returns the
    value written; when the write throws, the storage is left as it was,
    so the read returns what it returned before. *)
Theorem useLocalStorage_get_set (st : Storage) (key : string) (d v : A) :
  (getItem st key = Normal None → useLocalStorage_init st key d = d) ∧
  (∀ item, getItem st key = Normal (Some item) → JSON_parse item = None →
           useLocalStorage_init st key d = d) ∧
  (getItem st key = Throw → useLocalStorage_init st key d = d) ∧
  (∀ st', setItem st key (JSON_stringify v) = Normal st' →
          useLocalStorage_effect st key v = st' ∧
          useLocalStorage_init (useLocalStorage_effect st key v) key d = v) ∧
  (setItem st key (JSON_stringify v) = Throw →
     useLocalStorage_effect st key v = st ∧
     useLocalStorage_init (useLocalStorage_effect st key v) key d =
       useLocalStorage_init st key d).
Proof.
  split_and!.
  - intros Hget. unfold useLocalStorage_init. by rewrite Hget.
  - intros item Hget Hparse. unfold useLocalStorage_init. rewrite Hget.
    destruct item; simpl; [done|]. by rewrite Hparse.
  - intros Hget. unfold useLocalStorage_init. by rewrite Hget.
  - intros st' Hset. unfold useLocalStorage_effect. rewrite Hset.
    split; [done|]. by apply useLocalStorage_init_written with st.
  - intros Hset. unfold useLocalStorage_effect. by rewrite Hset.
Qed.
End useLocalStorageFacts.

(** The API key, written to an empty storage and read back. *)
Lemma useLocalStorage_get_set_witness :
  getItem empty_storage "omdbApiKey" = Normal None ∧
  useLocalStorage_init empty_storage "omdbApiKey" "" = "" ∧
  useLocalStorage_init
    (useLocalStorage_effect empty_storage "omdbApiKey" "abc123")
    "omdbApiKey" "" = "abc123".
Proof.
  pose proof (useLocalStorage_get_set (H0 := JSONLaws_string)
                empty_storage "omdbApiKey" "" "abc123") as (H1 & _ & _ & H4 & _).
  split_and!; [done|by apply H1|].
  by apply (H4 (useLocalStorage_effect empty_storage "omdbApiKey" "abc123")).
Defined.

(** C9, counterexample to the claim as stated: when the write cannot go
    through (here the key and the text of the value exceed the quota, or
    storage is disabled), the failure is swallowed and a read after it
    returns the default, not the value that was set. *)
Lemma useLocalStorage_set_lost :
  setItem small_storage "omdbApiKey" (JSON_stringify "abc123") = Throw ∧
  useLocalStorage_init
    (useLocalStorage_effect small_storage "omdbApiKey" "abc123")
    "omdbApiKey" "" = "" ∧
  useLocalStorage_init
    (useLocalStorage_effect disabled_storage "omdbApiKey" "abc123")
    "omdbApiKey" "" = "" ∧
  "" ≠ "abc123".
Proof. by vm_compute. Qed.

(** ** The favourites over their storage *)

Section AppFacts.
Context `{JSONLaws (gmap string Fav.t)}.

Lemma key_is_id_empty : key_is_id ∅.
Proof. intros k r Hk. by rewrite lookup_empty in Hk. Qed.

Lemma mount_reload (st : Storage) :
  reload (mount st) = favorites_state (mount st).
Proof.
  unfold reload, mount. simpl.
  destruct (useLocalStorage_effect_cases st "omdbFavorites"
              (useLocalStorage_init st "omdbFavorites" ∅)) as [Hw| ->]; [|done].
  apply Hw.
Qed.

Lemma click_toggle_reload (s : Session) (movie : Movie) :
  reload (click_toggle s movie) = favorites_state (click_toggle s movie) ∨
  reload (click_toggle s movie) = reload s.
Proof.
  unfold reload, click_toggle. simpl.
  destruct (useLocalStorage_effect_cases (storage s) "omdbFavorites"
              (toggleFavorite movie (favorites_state s))) as [Hw| ->];
    [left; apply Hw|by right].
Qed.

Lemma clicks_favorites_state (movies : list Movie) (s : Session) :
  favorites_state (foldl click_toggle s movies) =
    foldl (λ m movie, toggleFavorite movie m) (favorites_state s) movies.
Proof.
  revert s. induction movies as [|movie movies IH]; intros s; [done|].
  simpl. by rewrite IH.
Qed.

Lemma clicks_reload_key_is_id (movies : list Movie) (s : Session) :
  key_is_id (favorites_state s) → key_is_id (reload s) →
  key_is_id (reload (foldl click_toggle s movies)).
Proof.
  revert s. induction movies as [|movie movies IH]; intros s Hs Hr; [done|].
  simpl. apply IH.
  - by apply toggleFavorite_key_is_id.
  - destruct (click_toggle_reload s movie) as [-> | ->]; [|done].
    by apply toggleFavorite_key_is_id.
Qed.

(** C8: the empty mapping has every key equal to the id of its record,
    and so has every mapping reached by toggles from a mapping that has.
    A persist of such a mapping that goes through is read back as the same
    mapping.  In a session that started from what storage held, the mapping
    that a reload reads back after those toggles, each followed by its
    persist, has the property as well (it is the last mapping whose write
    went through, or the one the session started from). *)
Theorem favorites_key_is_id (st0 : Storage) (m0 : gmap string Fav.t)
    (movies : list Movie) :
  key_is_id m0 →
  let m := foldl (λ m movie, toggleFavorite movie m) m0 movies in
  key_is_id ∅ ∧
  key_is_id m ∧
  (∀ st st', setItem st "omdbFavorites" (JSON_stringify m) = Normal st' →
     useLocalStorage_effect st "omdbFavorites" m = st' ∧
     useLocalStorage_init st' "omdbFavorites" ∅ = m) ∧
  (useLocalStorage_init st0 "omdbFavorites" ∅ = m0 →
   let s := foldl click_toggle (mount st0) movies in
   favorites_state s = m ∧ key_is_id (reload s)).
Proof.
  intros Hm0 m. split_and!.
  - apply key_is_id_empty.
  - by apply toggles_key_is_id.
  - intros st st' Hset. split.
    + unfold useLocalStorage_effect. by rewrite Hset.
    + by apply useLocalStorage_init_written with st.
  - intros Hst0 s. subst s m. split.
    + rewrite clicks_favorites_state. unfold mount. simpl. by rewrite Hst0.
    + apply clicks_reload_key_is_id; rewrite ?mount_reload;
        unfold mount; simpl; by rewrite Hst0.
Qed.
End AppFacts.

(** Three clicks on the same movie, from an empty storage. *)
Lemma favorites_key_is_id_witness :
  key_is_id (∅ : gmap string Fav.t) ∧
  useLocalStorage_init empty_storage "omdbFavorites" ∅ = (∅ : gmap string Fav.t) ∧
  key_is_id (foldl (λ m movie, toggleFavorite movie m) ∅
               [matrix; matrix_retitled; matrix]) ∧
  key_is_id (reload (foldl click_toggle (mount empty_storage)
                       [matrix; matrix_retitled; matrix])).
Proof.
  pose proof (favorites_key_is_id (H0 := JSONLaws_favorites) empty_storage ∅
                [matrix; matrix_retitled; matrix] key_is_id_empty)
    as (H1 & H2 & _ & H3).
  split_and!; [exact H1|reflexivity|exact H2|].
  exact (proj2 (H3 eq_refl)).
Defined.

(* ================================================================== *)
(** * Part III. Further properties of the code *)
(* ================================================================== *)

(** ** Navigation and routing together *)

Lemma slash_free_split (s : string) : split "/"%char s = [s] → slash_free s.
Proof.
  intros Hs. destruct (split_first s) as (a & rest & Ha & Hfree & _).
  rewrite Hs in Ha. by injection Ha as <- _.
Qed.

Lemma kept_verbatim_fragment (s : string) :
  kept_verbatim s = true → fragment_of_input s = s.
Proof.
  induction s as [|c s IH]; [done|].
  cbn [kept_verbatim fragment_of_input]. intros [Hc Hs]%andb_prop.
  rewrite (IH Hs). clear IH Hs.
  destruct c as [[] [] [] [] [] [] [] []]; vm_compute in Hc; try discriminate;
    reflexivity.
Qed.

(** X1: a call of [navigate] leads the router back to the view it names:
    "search" and "favorites" give the Search and Favorites routes, and
    "details" with an id gives the Details route of that id, provided the
    id is non-empty, has no "/" and is made of characters that the browser
    keeps as they are in a fragment.  A name that is none of the three
    leaves the route as it is. *)
Theorem navigate_reaches_route (id : string) (route : Route) :
  id ≠ "" → slash_free id → kept_verbatim id = true →
  route_after_navigate "details" (Some id) route = details id ∧
  (∀ params_id, route_after_navigate "search" params_id route = search) ∧
  (∀ params_id, route_after_navigate "favorites" params_id route = favorites) ∧
  (∀ name params_id,
     name ≠ "search" → name ≠ "favorites" → name ≠ "details" →
     route_after_navigate name params_id route = route).
Proof.
  intros Hne Hfree Hkept. split_and!.
  - assert (navigate "details" (Some id) = Some ("/detalhes/" +:+ id)) as Hnav
      by reflexivity.
    assert (assign_location_hash ("/detalhes/" +:+ id) = "/detalhes/" +:+ id)
      as Hassign.
    { rewrite <- (kept_verbatim_fragment id Hkept) at 2. reflexivity. }
    unfold route_after_navigate. rewrite Hnav, Hassign.
    apply parseHash_details_shape. exists "/", "".
    split_and!; [by right|by left|done|done|].
    by rewrite append_empty_r.
  - done.
  - done.
  - intros name params_id H1 H2 H3. unfold route_after_navigate, navigate.
    by rewrite !bool_decide_eq_false_2 by done.
Qed.

(** The id of "The Matrix". *)
Lemma navigate_reaches_route_witness :
  "tt0133093" ≠ "" ∧ slash_free "tt0133093" ∧
  kept_verbatim "tt0133093" = true ∧
  route_after_navigate "details" (Some "tt0133093") search =
    details "tt0133093".
Proof.
  assert (slash_free "tt0133093") as Hfree by (by apply slash_free_split).
  split_and!; [done|exact Hfree|reflexivity|].
  exact (proj1 (navigate_reaches_route "tt0133093" search
                  ltac:(done) Hfree eq_refl)).
Defined.

(** ** The pagination control *)

(** An integer up to 2^53 is a double: rounding leaves it as it is. *)
Lemma binary64_pos_integer (z : Z) :
  (0 < z ≤ 2 ^ 53)%Z →
  ∃ b : positive, binary64_pos z 1 = (z * Z.pos b # b)%Q.
Proof.
  intros Hz. unfold binary64_pos, floor_log2.
  change (Z.log2 1) with 0%Z. rewrite Z.sub_0_r.
  pose proof (Z.log2_nonneg z) as Hlog0.
  pose proof (Z.log2_spec z ltac:(lia)) as [Hlow Hhigh].
  assert (Z.log2 z ≤ 53)%Z as Hlog
    by (change 53%Z with (Z.log2 (2 ^ 53)); apply Z.log2_le_mono; lia).
  rewrite (pow2_nonpos (- Z.log2 z)), (pow2_nonneg (Z.log2 z)) by lia.
  destruct (Z.ltb_spec (z * 1) (1 * 2 ^ Z.log2 z)) as [Hlt|_]; [lia|].
  destruct (decide (Z.log2 z = 53%Z)) as [E|Hne].
  - assert (z = 2 ^ 53)%Z as -> by (rewrite E in Hlow; lia).
    exists 1%positive. by vm_compute.
  - rewrite (pow2_nonpos (Z.log2 z - 52)), (pow2_nonneg (- (Z.log2 z - 52)))
      by lia.
    rewrite !Z.mul_1_r, round_half_even_exact.
    assert (0 < 2 ^ (- (Z.log2 z - 52)))%Z as HP
      by (apply Z.pow_pos_nonneg; lia).
    exists (Z.to_pos (2 ^ (- (Z.log2 z - 52)))). by rewrite Z2Pos.id by done.
Qed.

(** The sum of two doubles is exact when it is an integer up to 2^53. *)
Lemma double_add_exact (a b : Z) :
  (- 2 ^ 53 ≤ a + b ≤ 2 ^ 53)%Z → double_add a b = (a + b)%Z.
Proof.
  intros Hab. unfold double_add, binary64. cbn [inject_Z Qnum Qden].
  destruct (a + b)%Z as [|n|n] eqn:E; [done| |].
  - destruct (binary64_pos_integer (Z.pos n) ltac:(lia)) as [d ->].
    unfold Qfloor. by rewrite Z.div_mul.
  - destruct (binary64_pos_integer (Z.pos n) ltac:(lia)) as [d ->].
    unfold Qfloor, Qopp. cbn [Qnum Qden].
    rewrite <- Z.mul_opp_l. by rewrite Z.div_mul.
Qed.

(** Below 2^53 the loop counts up to [to] and ends. *)
Lemma push_pages_seqZ (fuel : nat) (p to : Z) (pages : list Z) :
  (- 2 ^ 53 ≤ p)%Z → (to < 2 ^ 53)%Z →
  (to - p + 1 ≤ Z.of_nat fuel)%Z →
  push_pages fuel p to pages = Some (pages ++ seqZ p (to - p + 1)).
Proof.
  revert p pages. induction fuel as [|fuel IH]; intros p pages Hp Hto Hfuel;
    cbn [push_pages]; destruct (Z.leb_spec p to) as [Hle|Hgt]; try lia.
  - rewrite seqZ_nil by lia. by rewrite app_nil_r.
  - rewrite double_add_exact by lia. rewrite IH by lia.
    rewrite <- app_assoc. do 2 f_equal.
    rewrite (seqZ_cons p) by lia. cbn [app]. do 2 f_equal; lia.
  - rewrite seqZ_nil by lia. by rewrite app_nil_r.
Qed.

(** At 2^53 adding 1 gives 2^53 again: the loop that is to reach 2^53 does
    not end, whatever the fuel. *)
Lemma push_pages_unending (fuel : nat) (pages : list Z) :
  push_pages fuel (2 ^ 53) (2 ^ 53) pages = None.
Proof.
  revert pages. induction fuel as [|fuel IH]; intros pages; [done|].
  cbn [push_pages]. rewrite Z.leb_refl.
  change (double_add (2 ^ 53) 1) with (2 ^ 53)%Z. apply IH.
Qed.

Lemma page_buttons_unending (fuel : nat) :
  page_buttons fuel (2 ^ 53) (2 ^ 53) = None.
Proof.
  unfold page_buttons.
  change (Z.max 1 (double_add (2 ^ 53) (-2))) with (2 ^ 53 - 2)%Z.
  change (Z.min (2 ^ 53) (double_add (2 ^ 53) 2)) with (2 ^ 53)%Z.
  destruct fuel as [|[|fuel]]; [done..|].
  cbn [push_pages].
  change (2 ^ 53 - 2 <=? 2 ^ 53)%Z with true. cbv iota.
  change (double_add (2 ^ 53 - 2) 1) with (2 ^ 53 - 1)%Z.
  change (2 ^ 53 - 1 <=? 2 ^ 53)%Z with true. cbv iota.
  change (double_add (2 ^ 53 - 1) 1) with (2 ^ 53)%Z.
  apply push_pages_unending.
Qed.

(** X2: for a current page within 2^53 - 2 of zero and a page count below
    2^53, where doubles count exactly, the loop ends within five turns and
    the numbered buttons are exactly the pages that lie both within two of
    the current page and between 1 and the page count, each once and in
    increasing order, so there are at most five of them. *)
Theorem page_buttons_window (page totalPages : Z) :
  (- (2 ^ 53 - 2) ≤ page ≤ 2 ^ 53 - 2)%Z → (totalPages < 2 ^ 53)%Z →
  ∃ pages : list Z,
    (∀ fuel, 5 ≤ fuel → page_buttons fuel page totalPages = Some pages) ∧
    (∀ p, p ∈ pages ↔
          (1 ≤ p ≤ totalPages)%Z ∧ (page - 2 ≤ p ≤ page + 2)%Z) ∧
    pages =
      seqZ (Z.max 1 (page - 2))
           (Z.min totalPages (page + 2) - Z.max 1 (page - 2) + 1) ∧
    length pages ≤ 5.
Proof.
  intros Hpage Htotal. eexists. split_and!; [|..|done|].
  - intros fuel Hfuel. unfold page_buttons.
    rewrite !double_add_exact by lia.
    rewrite push_pages_seqZ by lia. done.
  - intros p. rewrite elem_of_seqZ. lia.
  - rewrite length_seqZ. lia.
Qed.

(** Page 3 of 7: the buttons 1 to 5. *)
Lemma page_buttons_window_witness :
  (- (2 ^ 53 - 2) ≤ 3 ≤ 2 ^ 53 - 2)%Z ∧ (7 < 2 ^ 53)%Z ∧
  ∃ pages : list Z,
    (∀ fuel, 5 ≤ fuel → page_buttons fuel 3 7 = Some pages) ∧
    pages = seqZ (Z.max 1 (3 - 2)) (Z.min 7 (3 + 2) - Z.max 1 (3 - 2) + 1).
Proof.
  split; [lia|]. split; [lia|].
  destruct (page_buttons_window 3 7 ltac:(lia) ltac:(lia))
    as (pages & Hrun & _ & Heq & _).
  by exists pages.
Defined.

(** X3: with at least one page, [goto] hands [onChange] a page between 1
    and the page count: the requested page when it is in that range, 1 when
    it is below and the last page when it is above. *)
Theorem goto_clamps (totalPages p : Z) :
  (1 ≤ totalPages)%Z →
  (1 ≤ goto totalPages p ≤ totalPages)%Z ∧
  ((1 ≤ p ≤ totalPages)%Z → goto totalPages p = p) ∧
  ((p < 1)%Z → goto totalPages p = 1%Z) ∧
  ((totalPages < p)%Z → goto totalPages p = totalPages).
Proof.
  intros Htp. unfold goto.
  destruct (Z.ltb_spec p 1); destruct (Z.ltb_spec totalPages 1);
    destruct (Z.ltb_spec totalPages p); lia.
Qed.

(** "Next" on the last of three pages. *)
Lemma goto_clamps_witness :
  (1 ≤ 3)%Z ∧ (1 ≤ goto 3 4 ≤ 3)%Z ∧ goto 3 4 = 3%Z.
Proof.
  pose proof (goto_clamps 3 4 ltac:(lia)) as (H1 & _ & _ & H4).
  split; [lia|]. split; [exact H1|apply H4; lia].
Defined.

(** X4: the pagination control renders exactly when the total exceeds one
    page of 10, and never for a total that is not a number. *)
Theorem Pagination_renders_iff (total : Z) :
  (Pagination_renders (totalPages (Int total)) = true ↔ (10 < total)%Z) ∧
  Pagination_renders (totalPages NaN) = false.
Proof.
  split; [|done].
  unfold totalPages, Math_ceil_div10, Pagination_renders.
  rewrite Qceiling_div10.
  pose proof (Z.div_mod (- total) 10 ltac:(lia)) as Hdm.
  pose proof (Z.mod_pos_bound (- total) 10 ltac:(lia)) as Hb.
  rewrite negb_true_iff, orb_false_iff, Z.eqb_neq, Z.leb_gt. lia.
Qed.

(** ** The search page *)

(** The effect keyed on [page] either does nothing or starts one search
    for the term and the page of the view. *)
Lemma page_effect_cases (apiKey : string) (v : SearchView) :
  page_effect apiKey v = (controller v, []) ∨
  ((term v ≠ "" ∧ apiKey ≠ "") ∧
   page_effect apiKey v =
     ({| loading := true; error := JStr "";
         results := results (controller v); total := total (controller v) |},
      [SearchRequest apiKey (term v) (page v)])).
Proof.
  unfold page_effect. destruct v as [[|c t] pg st]; [by left|].
  destruct apiKey as [|k apiKey]; [by left|]. right. split; [done|].
  cbn [term page controller truthy_string andb].
  by rewrite doSearch_call_issued.
Qed.

Lemma goto_range (totalPages p : Z) :
  (1 ≤ totalPages)%Z → (1 ≤ goto totalPages p ≤ totalPages)%Z.
Proof.
  intros Htp. unfold goto.
  destruct (Z.ltb_spec p 1); destruct (Z.ltb_spec totalPages 1);
    destruct (Z.ltb_spec totalPages p); lia.
Qed.

(** X5: with at least one page, a click on any button of the pagination
    control leaves the view on a page between 1 and the page count, with
    the term unchanged, and issues at most one request; that request asks,
    with the current term, for the page the view is now on, which is not
    the page it was on. *)
Theorem Pagination_click_in_range (apiKey : string) (totalPages : Z)
    (v : SearchView) (p : Z) :
  (1 ≤ totalPages)%Z →
  let v' := (Pagination_click apiKey totalPages v p).1 in
  let log := (Pagination_click apiKey totalPages v p).2 in
  (1 ≤ page v' ≤ totalPages)%Z ∧ term v' = term v ∧
  length log ≤ 1 ∧
  (∀ r, r ∈ log →
     r = SearchRequest apiKey (term v) (page v') ∧ page v' ≠ page v).
Proof.
  intros Htp. unfold Pagination_click, setPage.
  pose proof (goto_range totalPages p Htp) as Hgoto.
  case_bool_decide as Hsame.
  { cbn [fst snd]. rewrite <- Hsame.
    split_and!; [lia..|done|simpl; lia|set_solver]. }
  destruct (page_effect_cases apiKey
              {| term := term v; page := goto totalPages p;
                 controller := controller v |}) as [-> | [_ ->]];
    cbn [fst snd page term controller].
  - split_and!; [lia..|done|simpl; lia|set_solver].
  - split_and!; [lia..|done|simpl; lia|].
    by intros r ->%list_elem_of_singleton.
Qed.

(** "Next" on page 1 of 3. *)
Lemma Pagination_click_in_range_witness :
  let v := {| term := "matrix"; page := 1; controller := SearchState_init |} in
  (1 ≤ 3)%Z ∧
  (1 ≤ page (Pagination_click "k" 3 v 2).1 ≤ 3)%Z ∧
  (Pagination_click "k" 3 v 2).2 = [SearchRequest "k" "matrix" 2].
Proof.
  split; [lia|]. split; [|reflexivity].
  exact (proj1 (Pagination_click_in_range "k" 3
                  {| term := "matrix"; page := 1; controller := SearchState_init |}
                  2 ltac:(lia))).
Defined.

(** X6: a submit with a term and a credential puts the view on page 1 in
    the loading state with the error cleared.  It issues one request for
    page 1 of the term when the view was on page 1 already, and two such
    requests when it was on another page: the one [onSubmit] starts itself
    and the one the effect keyed on [page] starts after the render. *)
Theorem onSubmit_requests (apiKey : string) (v : SearchView) :
  term v ≠ "" → apiKey ≠ "" →
  let v' := (onSubmit apiKey v).1 in
  let log := (onSubmit apiKey v).2 in
  let url := SearchRequest apiKey (term v) 1 in
  page v' = 1%Z ∧ term v' = term v ∧
  loading (controller v') = true ∧ error (controller v') = JStr "" ∧
  results (controller v') = results (controller v) ∧
  (page v = 1%Z → log = [url]) ∧
  (page v ≠ 1%Z → log = [url; url]).
Proof.
  intros Ht Hk. unfold onSubmit. rewrite doSearch_call_issued by done.
  case_bool_decide as Hpage.
  - cbn [fst snd page term controller loading error results].
    split_and!; try done.
  - destruct (page_effect_cases apiKey
                {| term := term v; page := 1;
                   controller :=
                     {| loading := true; error := JStr "";
                        results := results (controller v);
                        total := total (controller v) |} |})
      as [E | [_ ->]].
    + exfalso. unfold page_effect in E. cbn [term page controller] in E.
      rewrite !truthy_string_Some, doSearch_call_issued in E by done.
      discriminate.
    + cbn [fst snd page term controller loading error results].
      split_and!; try done.
Qed.

(** A second query typed while on page 3. *)
Lemma onSubmit_requests_witness :
  let v := {| term := "matrix"; page := 3; controller := SearchState_init |} in
  term v ≠ "" ∧ "k" ≠ "" ∧
  (onSubmit "k" v).2 = [SearchRequest "k" "matrix" 1; SearchRequest "k" "matrix" 1].
Proof.
  split_and!; [done..|].
  apply (onSubmit_requests "k"
           {| term := "matrix"; page := 3; controller := SearchState_init |}
           ltac:(done) ltac:(done)).
  done.
Defined.

Section OverlapFacts.
Variable StringToNumber : string → number.

End OverlapFacts.


(** ** The detail page *)

Section DetailPageFacts.
Variable network : Request → completion json.

(** X8: a call of [load] sets loading, clears the error and issues exactly
    one request, for the given credential and id.  When the outcome of the
    request arrives, in a state [st], loading goes off; a reply that is
    not null and not marked Response "False" becomes the data, whole, and
    the error is left as [st] holds it.  With nothing running between the
    call and the arrival, such a reply leaves no error. *)
Theorem load_completes (apiKey id : string) (st0 st : DetailState) :
  let url := DetailRequest apiKey id in
  let st' := load_arrival (network url) st in
  let alone := (run_load network apiKey id st0).1 in
  load_call apiKey id st0 =
    ({| d_loading := true; d_error := JStr ""; data := data st0 |}, [url]) ∧
  d_loading st' = false ∧
  alone = load_arrival (network url) (load_call apiKey id st0).1 ∧
  (∀ json, network url = Normal json → json ≠ JNull →
     strict_eq_string (property json "Response") "False" = false →
     data st' = json ∧ d_error st' = d_error st ∧
     data alone = json ∧ d_error alone = JStr "").
Proof.
  intros url st' alone. subst st' alone url.
  rewrite load_phases, load_call_issued. cbn [fst].
  split; [done|]. split.
  - destruct (network (DetailRequest apiKey id)) as [json|] eqn:Hnet.
    + assert (json = JNull ∨ json ≠ JNull) as [->|Hjson]
        by (destruct json; [by left|by right..]).
      { by rewrite load_arrival_thrown by auto. }
      destruct (strict_eq_string (property json "Response") "False") eqn:HF.
      * by rewrite load_arrival_not_found by done.
      * by rewrite load_arrival_found by done.
    + by rewrite load_arrival_thrown by auto.
  - split; [done|]. intros json -> Hjson HF.
    by rewrite !load_arrival_found by done.
Qed.

(** X9: with a credential, every Details route that the router produces
    makes the effect of the detail page issue exactly one request, for the
    id of the route; that id is never empty and has no "/".  Without a
    credential the effect issues nothing and changes nothing. *)
Theorem details_route_loads (apiKey fragment id : string) (st : DetailState) :
  parseHash (location_hash fragment) = details id →
  id ≠ "" ∧ slash_free id ∧
  (apiKey ≠ "" →
   (DetailsView_effect network apiKey id st).2 = [DetailRequest apiKey id] ∧
   d_loading (DetailsView_effect network apiKey id st).1 = false) ∧
  (apiKey = "" → DetailsView_effect network apiKey id st = (st, [])).
Proof.
  intros (lead & tail & _ & _ & Hne & Hfree & _)%parseHash_details_inv.
  split_and!; [done..| |by intros ->].
  intros Hk. unfold DetailsView_effect.
  rewrite !truthy_string_Some by done. cbn [andb].
  destruct (network (DetailRequest apiKey id)) as [json|] eqn:Hnet.
  - assert (json = JNull ∨ json ≠ JNull) as [->|Hjson]
      by (destruct json; [by left|by right..]).
    { by rewrite run_load_thrown by auto. }
    run_controller. rewrite Hnet. simpl. rewrite !Get_not_null by done. simpl.
    destruct (strict_eq_string (property json "Response") "False"); simpl; done.
  - by rewrite run_load_thrown by auto.
Qed.
End DetailPageFacts.

(** The route of "The Matrix". *)
Lemma details_route_loads_witness :
  parseHash (location_hash "/detalhes/tt0133093") = details "tt0133093" ∧
  (DetailsView_effect (λ _, Normal sample_detail) "k" "tt0133093"
     DetailState_init).2 = [DetailRequest "k" "tt0133093"].
Proof.
  split; [reflexivity|].
  pose proof (details_route_loads (λ _, Normal sample_detail) "k"
                "/detalhes/tt0133093" "tt0133093" DetailState_init eq_refl)
    as (_ & _ & H & _).
  exact (proj1 (H ltac:(done))).
Defined.

(** ** The favourites store, further *)

Lemma truthy_at_absent (m : gmap string Fav.t) (k : string) :
  k ∉ ObjectPrototype → truthy_at m k = false ↔ m !! k = None.
Proof.
  intros Hk. unfold truthy_at. destruct (m !! k); [done|].
  by rewrite bool_decide_eq_false_2.
Qed.

(** X10: for an id that is no inherited property name, a toggle flips
    whether the id reads as favourite: an id that was none is stored with
    the record derived from the item and the mapping grows by one, an id
    that was one is deleted and the mapping shrinks by one. *)
Theorem toggleFavorite_flips (movie : Movie) (m : gmap string Fav.t) :
  imdbID movie ∉ ObjectPrototype →
  isFav (toggleFavorite movie m) (imdbID movie) = negb (isFav m (imdbID movie)) ∧
  (isFav m (imdbID movie) = false →
     toggleFavorite movie m !! imdbID movie = Some (favorite_of movie) ∧
     size (toggleFavorite movie m) = S (size m)) ∧
  (isFav m (imdbID movie) = true →
     toggleFavorite movie m !! imdbID movie = None ∧
     S (size (toggleFavorite movie m)) = size m).
Proof.
  intros Hid. unfold isFav.
  destruct (m !! imdbID movie) as [r|] eqn:Hm.
  - rewrite (toggleFavorite_present movie m r Hm).
    assert (truthy_at m (imdbID movie) = true) as ->
      by (unfold truthy_at; by rewrite Hm).
    assert (truthy_at (delete (imdbID movie) m) (imdbID movie) = false) as ->
      by (apply truthy_at_absent; [done|apply lookup_delete_eq]).
    split_and!; [done..|]. intros _. split; [apply lookup_delete_eq|].
    rewrite map_size_delete, Hm. apply Nat.succ_pred. intros Hsize.
    apply map_size_empty_iff in Hsize. subst m. by rewrite lookup_empty in Hm.
  - rewrite (toggleFavorite_absent movie m Hm Hid).
    assert (truthy_at m (imdbID movie) = false) as ->
      by (by apply truthy_at_absent).
    assert (truthy_at (<[imdbID movie:=favorite_of movie]> m) (imdbID movie)
            = true) as ->
      by (unfold truthy_at; by rewrite lookup_insert_eq).
    split_and!; [done| |done]. intros _. split; [apply lookup_insert_eq|].
    by apply map_size_insert_None.
Qed.

(** "The Matrix", toggled into an empty mapping. *)
Lemma toggleFavorite_flips_witness :
  (imdbID matrix ∉ ObjectPrototype) ∧
  isFav (toggleFavorite matrix ∅) (imdbID matrix) = true.
Proof.
  assert (imdbID matrix ∉ ObjectPrototype) as Hid by compute_done.
  split; [exact Hid|].
  exact (proj1 (toggleFavorite_flips matrix ∅ Hid)).
Defined.

(** X11: a toggle touches nothing but the entry of its own id: every other
    key keeps its record, or its absence, and reads as favourite exactly
    when it did before. *)
Theorem toggleFavorite_other_keys (movie : Movie) (m : gmap string Fav.t)
    (k : string) :
  k ≠ imdbID movie →
  toggleFavorite movie m !! k = m !! k ∧
  isFav (toggleFavorite movie m) k = isFav m k.
Proof.
  intros Hk.
  assert (toggleFavorite movie m !! k = m !! k) as Hlookup.
  { unfold toggleFavorite. destruct (truthy_at m (imdbID movie)).
    - by apply lookup_delete_ne.
    - by apply lookup_insert_ne. }
  split; [done|]. unfold isFav, truthy_at. by rewrite Hlookup.
Qed.

Lemma toggleFavorite_other_keys_witness :
  "tt0000001" ≠ imdbID matrix ∧
  toggleFavorite matrix ∅ !! "tt0000001" = None.
Proof.
  split; [done|].
  exact (proj1 (toggleFavorite_other_keys matrix ∅ "tt0000001" ltac:(done))).
Defined.

Lemma toggleFavorite_truthy_other (a b : Movie) (m : gmap string Fav.t) :
  imdbID a ≠ imdbID b →
  truthy_at (toggleFavorite b m) (imdbID a) = truthy_at m (imdbID a).
Proof.
  intros Hab.
  assert (toggleFavorite b m !! imdbID a = m !! imdbID a) as Hlookup.
  { unfold toggleFavorite. destruct (truthy_at m (imdbID b)).
    - by apply lookup_delete_ne.
    - by apply lookup_insert_ne. }
  unfold truthy_at. by rewrite Hlookup.
Qed.

(** X12: toggles of items with different ids commute: the mapping after
    both does not depend on which came first. *)
Theorem toggleFavorite_commutes (a b : Movie) (m : gmap string Fav.t) :
  imdbID a ≠ imdbID b →
  toggleFavorite a (toggleFavorite b m) = toggleFavorite b (toggleFavorite a m).
Proof.
  intros Hab.
  pose proof (toggleFavorite_truthy_other a b m Hab) as Ha.
  pose proof (toggleFavorite_truthy_other b a m (not_eq_sym Hab)) as Hb.
  unfold toggleFavorite at 1 3. rewrite Ha, Hb.
  unfold toggleFavorite.
  destruct (truthy_at m (imdbID a)), (truthy_at m (imdbID b)).
  - apply delete_delete.
  - by rewrite delete_insert_ne.
  - by rewrite delete_insert_ne.
  - by apply insert_insert_ne.
Qed.

Lemma toggleFavorite_commutes_witness :
  imdbID matrix ≠ imdbID constructor_movie ∧
  toggleFavorite matrix (toggleFavorite constructor_movie ∅) =
    toggleFavorite constructor_movie (toggleFavorite matrix ∅).
Proof.
  split; [done|].
  exact (toggleFavorite_commutes matrix constructor_movie ∅ ltac:(done)).
Defined.

(** X13: on the favourites page, where every key is the id of its record,
    the remove button of a listed favourite deletes exactly that favourite:
    it is listed no more, the mapping loses one entry and keeps its
    invariant.  The page shows its "no favourites" text exactly when the
    mapping is empty. *)
Theorem FavoritesView_remove (m : gmap string Fav.t) (r : Fav.t) :
  key_is_id m → r ∈ Object_values m →
  let m' := toggleFavorite (as_movie r) m in
  m' = delete (Fav.imdbID r) m ∧
  (r ∉ Object_values m') ∧
  S (size m') = size m ∧
  key_is_id m' ∧
  (FavoritesView_empty m = true ↔ m = ∅).
Proof.
  intros Hm Hr. unfold Object_values in Hr.
  apply list_elem_of_fmap in Hr as ([k r'] & -> & Hkr).
  apply elem_of_map_to_list in Hkr. cbn [snd].
  pose proof (Hm k r' Hkr) as Hid.
  assert (toggleFavorite (as_movie r') m = delete (Fav.imdbID r') m) as Hdel.
  { apply (toggleFavorite_present (as_movie r') m r'). cbn [as_movie imdbID].
    by rewrite Hid. }
  cbv zeta. rewrite Hdel. split_and!.
  - done.
  - unfold Object_values. intros Hin.
    apply list_elem_of_fmap in Hin as ([k2 r2] & E & Hk2).
    cbn [snd] in E. subst r2.
    apply elem_of_map_to_list, lookup_delete_Some in Hk2 as [Hne Hk2].
    apply Hne. by apply Hm.
  - rewrite map_size_delete, Hid, Hkr. simpl.
    apply Nat.succ_pred. intros Hsize.
    apply map_size_empty_iff in Hsize. subst m. by rewrite lookup_empty in Hkr.
  - intros k2 r2 [_ H2]%lookup_delete_Some. by apply Hm.
  - unfold FavoritesView_empty, Object_values.
    rewrite bool_decide_eq_true, length_fmap.
    rewrite <- map_to_list_empty_iff. by rewrite length_zero_iff_nil.
Qed.

(** The one favourite of a mapping, removed. *)
Lemma FavoritesView_remove_witness :
  let m : gmap string Fav.t := toggleFavorite matrix ∅ in
  key_is_id m ∧ favorite_of matrix ∈ Object_values m ∧
  toggleFavorite (as_movie (favorite_of matrix)) m =
    delete "tt0133093" m.
Proof.
  assert (key_is_id (toggleFavorite matrix ∅)) as Hm
    by (apply toggleFavorite_key_is_id; intros k r Hk;
        by rewrite lookup_empty in Hk).
  assert (favorite_of matrix ∈ Object_values (toggleFavorite matrix ∅)) as Hr
    by (vm_compute; apply list_elem_of_here).
  split_and!; [exact Hm|exact Hr|].
  exact (proj1 (FavoritesView_remove (toggleFavorite matrix ∅)
                  (favorite_of matrix) Hm Hr)).
Defined.

(** ** The storage hook, further *)

Lemma getItem_setItem_ne (st st' : Storage) (key key' value : string) :
  key ≠ key' → setItem st key value = Normal st' →
  getItem st' key' = getItem st key'.
Proof.
  intros Hne. unfold setItem, getItem. destruct (accessible st); [|done].
  case_decide; [|done]. intros [= <-]. simpl. by rewrite lookup_insert_ne.
Qed.

Section TwoEntries.
Context {A B : Type} `{JSON A} `{JSON B}.

(** X14: the two entries of the application do not disturb each other:
    persisting a value under one key, whether the write goes through or
    not, leaves what the hook reads under any other key as it was. *)
Theorem useLocalStorage_other_key (st : Storage) (key key' : string)
    (v : A) (d : B) :
  key ≠ key' →
  useLocalStorage_init (useLocalStorage_effect st key v) key' d =
    useLocalStorage_init st key' d.
Proof.
  intros Hne. unfold useLocalStorage_effect.
  destruct (setItem st key (JSON_stringify v)) as [st'|] eqn:Hset; [|done].
  unfold useLocalStorage_init. by rewrite (getItem_setItem_ne _ _ _ _ _ Hne Hset).
Qed.
End TwoEntries.

(** The favourites are persisted; the API key is read. *)
Lemma useLocalStorage_other_key_witness :
  "omdbFavorites" ≠ "omdbApiKey" ∧
  useLocalStorage_init
    (useLocalStorage_effect
       (useLocalStorage_effect empty_storage "omdbApiKey" "abc123")
       "omdbFavorites" (toggleFavorite matrix ∅))
    "omdbApiKey" "" = "abc123".
Proof.
  split; [done|].
  rewrite (useLocalStorage_other_key
             (useLocalStorage_effect empty_storage "omdbApiKey" "abc123")
             "omdbFavorites" "omdbApiKey" (toggleFavorite matrix ∅) ""
             ltac:(done)).
  reflexivity.
Defined.

Section EffectFacts.
Context {A : Type} `{JSON A}.

(** X15: persisting the same value twice in a row leaves the storage that
    persisting it once leaves, whether the write goes through or not. *)
Theorem useLocalStorage_effect_twice (st : Storage) (key : string) (v : A) :
  useLocalStorage_effect (useLocalStorage_effect st key v) key v =
    useLocalStorage_effect st key v.
Proof.
  unfold useLocalStorage_effect.
  destruct (setItem st key (JSON_stringify v)) as [st'|] eqn:Hset;
    [|by rewrite Hset].
  revert Hset. unfold setItem.
  destruct (accessible st) eqn:Hacc; [|done].
  case_decide as Hfit; [|done]. intros [= <-]. cbn [accessible quota items].
  rewrite insert_insert_eq. by rewrite decide_True by done.
Qed.
End EffectFacts.

(** ** The fields of the detail page *)


